(** * WikiCommons license crawler: a shallow embedding and its properties

    The development follows [src/wikicommons/wikicommons-scratcher.py].
    The script walks the category tree of Wikimedia Commons below a root
    license category and appends one row per category to a report file.

    Layout:
    - [PyStr]: the [str] methods the script uses;
    - [PyVal]: the values [requests.get(url).json()] can produce, with the
      subscript, iteration and membership operations of Python;
    - [Backoff]: the arithmetic of [expo_backoff], in exact rationals;
    - [Crawler]: the module state, the effects and the functions of the
      script, over a remote endpoint and a random source given as oracles;
    - [Spec]: the operations as the specification words them, to compare
      the script with;
    - [Examples]: concrete answers, endpoints and states;
    - the properties.

    What is left out of the model: JSON numbers with a fractional part, the
    rounding of binary floating point (the comparisons that matter are
    between values at least one thousandth apart, see [Backoff]), failures
    of the local file system, the content of a printed traceback, and
    - [KeyboardInterrupt]: no keyboard event occurs in a run of the model,
      so the branch of the [__main__] block that exits with status 130 is
      never taken;
    - the path in [DATA_WRITE_FILE]: [main] extends it on entry and
      restores it only when it returns, so [main] is modelled for a call
      that finds the global equal to [CWD], as the one call of the
      [__main__] block does;
    - what Python does once the recursion limit of the interpreter is
      reached: the traversal takes the depth it may use as a parameter and
      the model stops following a run that needs more (see [Result]). *)

From Stdlib Require Import Ascii String QArith Qminmax Lqa.
From stdpp Require Import gmap strings pretty list fin_maps.

#[local] Set Warnings "-register-all,-clear-no-such-hyp".

(** ** Python strings *)

Module PyStr.

(** [s.replace(old, new)] for a non-empty [old]: one pass from the left,
    matches do not overlap and the inserted text is not scanned again.
    [skip] counts the characters of the current match still to drop.
    Both call sites of the script pass a non-empty [old]. *)
Fixpoint replace_from (old new : string) (skip : nat) (s : string) : string :=
  match s with
  | EmptyString => EmptyString
  | String c rest =>
      match skip with
      | S k => replace_from old new k rest
      | O =>
          if String.prefix old s
          then new +:+ replace_from old new (String.length old - 1) rest
          else String c (replace_from old new 0 rest)
      end
  end.

Definition replace (old new s : string) : string := replace_from old new 0 s.

(** [old in s] on strings. *)
Fixpoint contains (old s : string) : bool :=
  String.prefix old s ||
  match s with
  | EmptyString => false
  | String _ rest => contains old rest
  end.

(** [s.split(sep)] for a one-character separator; the result is never
    empty. *)
Fixpoint split (sep : ascii) (s : string) : list string :=
  match s with
  | EmptyString => [EmptyString]
  | String c rest =>
      if Ascii.eqb c sep then EmptyString :: split sep rest
      else match split sep rest with
           | h :: t => String c h :: t
           | [] => [String c EmptyString]
           end
  end.

(** [l[-1]] on a list of strings that is known to be non-empty. *)
Definition last_item (l : list string) : string := default EmptyString (last l).

(** The characters of a string as one-character strings, the way a [for]
    loop over a [str] sees them. *)
Fixpoint chars (s : string) : list string :=
  match s with
  | EmptyString => []
  | String c rest => String c EmptyString :: chars rest
  end.

End PyStr.

(** ** Python values obtained from JSON *)

Module PyVal.

(** A decoded JSON document.  A Python [dict] has one entry per key, which
    the finite map gives by construction.  The order of the entries is not
    kept: the script only adds integers over the entries of a [dict], and
    when several entries make a loop raise, the order only decides which
    exception comes first, which no handler of the script looks at. *)
Inductive pyval : Type :=
| PNone
| PBool (b : bool)
| PInt (z : Z)
| PStr (s : string)
| PList (l : list pyval)
| PDict (d : gmap string pyval).

(** Exceptions that are subclasses of [Exception]. *)
Inductive Exn : Type :=
| KeyError
| IndexError
| TypeError
| AttributeError
| UnboundLocalError.

(** A computation that returns a value or raises. *)
Definition raises (A : Type) : Type := Exn + A.

#[export] Instance raises_ret : MRet raises := λ A x, inr x.
#[export] Instance raises_bind : MBind raises := λ A B f m,
  match m with inl e => inl e | inr x => f x end.

Definition succeeded {A} (m : raises A) : option A :=
  match m with inr x => Some x | inl _ => None end.

(** [l[i]] on a list, negative indices counting from the end. *)
Definition list_index (l : list pyval) (i : Z) : raises pyval :=
  let n := Z.of_nat (length l) in
  let j := if (i <? 0)%Z then (i + n)%Z else i in
  if (j <? 0)%Z then inl IndexError
  else match l !! Z.to_nat j with Some x => inr x | None => inl IndexError end.

(** [v[k]].  The keys of a decoded JSON object are strings, so a key of
    another hashable type is missing; a [list] or [dict] key is not
    hashable.  The script never subscripts a [str] by an integer (its keys
    are string literals and the items of the value it iterates over); that
    case is given as [IndexError]. *)
Definition getitem (v k : pyval) : raises pyval :=
  match v, k with
  | PDict d, PStr s => match d !! s with Some x => inr x | None => inl KeyError end
  | PDict _, (PList _ | PDict _) => inl TypeError
  | PDict _, _ => inl KeyError
  | PList l, PInt i => list_index l i
  | PList l, PBool b => list_index l (if b then 1 else 0)
  | PStr _, (PInt _ | PBool _) => inl IndexError
  | _, _ => inl TypeError
  end.

(** The items a [for] loop over [v] goes through. *)
Definition iter (v : pyval) : raises (list pyval) :=
  match v with
  | PList l => inr l
  | PDict d => inr (PStr <$> (map_to_list d).*1)
  | PStr s => inr (PStr <$> PyStr.chars s)
  | _ => inl TypeError
  end.

(** [k in v] for a string [k]: key membership on a [dict], element
    membership on a [list], substring test on a [str]. *)
Definition is_str (k : string) (v : pyval) : bool :=
  match v with PStr s => String.eqb k s | _ => false end.

Definition contains (k : string) (v : pyval) : raises bool :=
  match v with
  | PDict d => inr (bool_decide (is_Some (d !! k)))
  | PList l => inr (existsb (is_str k) l)
  | PStr s => inr (PyStr.contains k s)
  | _ => inl TypeError
  end.

(** [n + v] for an [int] accumulator [n]; [bool] is a subclass of [int]. *)
Definition int_add (n : Z) (v : pyval) : raises Z :=
  match v with
  | PInt z => inr (n + z)%Z
  | PBool b => inr (n + (if b then 1 else 0))%Z
  | _ => inl TypeError
  end.

(** [v.replace(old, new)]: only [str] has the method. *)
Definition str_replace (v : pyval) (old new : string) : raises string :=
  match v with
  | PStr s => inr (PyStr.replace old new s)
  | _ => inl AttributeError
  end.

End PyVal.

Export PyVal.

(** ** The backoff arithmetic *)

Module Backoff.

Definition CALLBACK_INDEX : Z := 2.
Definition MAX_WAIT : Z := 64.

(** [random.randint(1, 1000) / 1000] for a draw [r].  The quotient is
    taken exactly; Python rounds it to the nearest double, which keeps
    the order of two quotients and leaves [1000 / 1000] equal to [1.0]. *)
Definition jitter (r : Z) : Q := r # 1000.

(** [random.randint(1, 1000) / 1000 + CALLBACK_INDEX**CALLBACK_EXPO].
    [CALLBACK_EXPO] starts at 0 and is only incremented or reset to 0, so
    it is a natural number and the power is an integer. *)
Definition backoff (r : Z) (expo : nat) : Q :=
  jitter r + inject_Z (CALLBACK_INDEX ^ Z.of_nat expo).

Definition Qltb (a b : Q) : bool := negb (Qle_bool b a).

(** The argument of [time.sleep]. *)
Definition sleep_time (r : Z) (expo : nat) : Q :=
  Qmin (backoff r expo) (inject_Z MAX_WAIT).

(** [CALLBACK_EXPO] after the call. *)
Definition next_expo (r : Z) (expo : nat) : nat :=
  if Qltb (backoff r expo) (inject_Z MAX_WAIT) then S expo else expo.

(** The exponent after a run of calls, one draw per call, with no reset
    in between. *)
Definition expo_after (draws : list Z) (expo : nat) : nat :=
  foldl (λ e r, next_expo r e) expo draws.

(** The least time a call can sleep at a given exponent: the draw is at
    least 1. *)
Definition min_sleep (expo : nat) : Q := sleep_time 1 expo.

End Backoff.

(** ** The crawler *)

Module Crawler.

(** *** The state of a run and its effects *)

(** A line of the report file.  [set_up_data_file] writes the header,
    [record_license_data] a row; [line_text] is the text written. *)
Inductive Line : Type :=
| Header
| Row (alias : string) (file_cnt page_cnt : Z).

Definition line_text (l : Line) : string :=
  match l with
  | Header => "LICENSE TYPE,File Count, Page Count"
  | Row alias file_cnt page_cnt =>
      alias +:+ "," +:+ pretty file_cnt +:+ "," +:+ pretty page_cnt
  end.

(** What [print] sends to a stream. *)
Inductive Output : Type :=
| OutText (s : string)
| OutValue (v : pyval)
| OutTraceback.

(** The module globals ([CALLBACK_EXPO], [LICENSE_CACHE]) and the trace
    of what the run has done to the outside: the lines appended to the
    file behind [DATA_WRITE_FILE], the URLs requested, the arguments of
    [time.sleep], the number of random draws, and the two streams. *)
Record World : Type := mkWorld {
  CALLBACK_EXPO : nat;
  LICENSE_CACHE : gmap string bool;
  data_file : list Line;
  requests : list string;
  sleeps : list Q;
  draws : nat;
  stdout : list Output;
  stderr : list Output
}.

(** The state at process start, on an empty file. *)
Definition initial : World :=
  mkWorld 0 ∅ [] [] [] 0 [] [].

(** How a call ends.  [OutOfFuel] marks a run that needed a deeper
    recursion of [recur_record_all_licenses] than the budget it was given,
    which stands for what the recursion limit of the interpreter
    ([sys.getrecursionlimit()], 1000 by default, shared with every other
    frame on the stack) leaves to the traversal.  Python raises
    [RecursionError] at that point, in whichever call no longer fits; the
    model does not say where, and does not follow the run further: the
    state that comes with [OutOfFuel] is the state reached before the
    call that did not fit. *)
Inductive Result (A : Type) : Type :=
| Ok (a : A)
| Raised (e : Exn)
| Exited (code : Z)
| OutOfFuel.
Arguments Ok {A} a.
Arguments Raised {A} e.
Arguments Exited {A} code.
Arguments OutOfFuel {A}.

Definition M (A : Type) : Type := World → Result A * World.

#[export] Instance M_ret : MRet M := λ A x w, (Ok x, w).
#[export] Instance M_bind : MBind M := λ A B f m w,
  match m w with
  | (Ok a, w') => f a w'
  | (Raised e, w') => (Raised e, w')
  | (Exited c, w') => (Exited c, w')
  | (OutOfFuel, w') => (OutOfFuel, w')
  end.

Definition raise {A} (e : Exn) : M A := λ w, (Raised e, w).
Definition sys_exit {A} (code : Z) : M A := λ w, (Exited code, w).
Definition out_of_fuel {A} : M A := λ w, (OutOfFuel, w).

Definition lift {A} (r : raises A) : M A :=
  match r with inl e => raise e | inr x => mret x end.

Definition get_expo : M nat := λ w, (Ok (CALLBACK_EXPO w), w).

Definition set_expo (e : nat) : M unit := λ w,
  (Ok (), mkWorld e (LICENSE_CACHE w) (data_file w) (requests w)
                  (sleeps w) (draws w) (stdout w) (stderr w)).

Definition cache_contains (k : string) : M bool := λ w,
  (Ok (bool_decide (is_Some (LICENSE_CACHE w !! k))), w).

Definition cache_set (k : string) (v : bool) : M unit := λ w,
  (Ok (), mkWorld (CALLBACK_EXPO w) (<[k := v]> (LICENSE_CACHE w)) (data_file w)
                  (requests w) (sleeps w) (draws w) (stdout w) (stderr w)).

Definition file_append (l : Line) : M unit := λ w,
  (Ok (), mkWorld (CALLBACK_EXPO w) (LICENSE_CACHE w) (data_file w ++ [l])
                  (requests w) (sleeps w) (draws w) (stdout w) (stderr w)).

Definition time_sleep (t : Q) : M unit := λ w,
  (Ok (), mkWorld (CALLBACK_EXPO w) (LICENSE_CACHE w) (data_file w)
                  (requests w) (sleeps w ++ [t]) (draws w) (stdout w) (stderr w)).

Definition print_out (o : Output) : M unit := λ w,
  (Ok (), mkWorld (CALLBACK_EXPO w) (LICENSE_CACHE w) (data_file w)
                  (requests w) (sleeps w) (draws w) (stdout w ++ [o]) (stderr w)).

Definition print_err (o : Output) : M unit := λ w,
  (Ok (), mkWorld (CALLBACK_EXPO w) (LICENSE_CACHE w) (data_file w)
                  (requests w) (sleeps w) (draws w) (stdout w) (stderr w ++ [o])).

(** [for x in l: body(x)]. *)
Fixpoint for_each {A} (l : list A) (body : A → M unit) : M unit :=
  match l with
  | [] => mret ()
  | x :: l' => body x;; for_each l' body
  end.

(** The text of the file: every write ends its line. *)
Definition file_text (w : World) : string :=
  String.concat "" ((λ l, line_text l +:+ String "010" "") <$> data_file w).

(** The data rows of the file. *)
Definition is_row (l : Line) : bool :=
  match l with Row _ _ _ => true | Header => false end.

(** *** The request URLs *)

Definition get_content_request_url (license : string) : string :=
  "https://commons.wikimedia.org/w/api.php?" +:+
  "action=query&prop=categoryinfo&titles=" +:+
  "Category:" +:+ license +:+ "&format=json".

Definition get_subcat_request_url (license : string) : string :=
  "https://commons.wikimedia.org/w/api.php?" +:+
  "action=query&cmtitle=" +:+
  "Category:" +:+ license +:+
  "&cmtype=subcat&list=categorymembers&format=json".

(** *** Reading a response *)

(** The body of the loop of [get_subcategories]. *)
Definition member_name (members : pyval) : raises string :=
  title ← getitem members (PStr "title");
  stripped ← str_replace title "Category:" "";
  mret (PyStr.replace "&" "%26" stripped).

(** Lines 114 to 119: the list built from [search_data]. *)
Definition cat_list_of (search_data : pyval) : raises (list string) :=
  query ← getitem search_data (PStr "query");
  categorymembers ← getitem query (PStr "categorymembers");
  items ← iter categorymembers;
  mapM member_name items.

(** The dictionary [get_license_contents] returns. *)
Record Counts : Type := mkCounts { total_file_cnt : Z; total_page_cnt : Z }.

(** Lines 155 to 158: the loop over the ids of [pages], with the two
    counters. *)
Fixpoint count_loop (pages : pyval) (ids : list pyval) (file_cnt page_cnt : Z)
  : raises Counts :=
  match ids with
  | [] => mret (mkCounts file_cnt page_cnt)
  | id :: ids' =>
      lic_content ← getitem pages id;
      info ← getitem lic_content (PStr "categoryinfo");
      files ← getitem info (PStr "files");
      file_cnt' ← int_add file_cnt files;
      info' ← getitem lic_content (PStr "categoryinfo");
      pages_n ← getitem info' (PStr "pages");
      page_cnt' ← int_add page_cnt pages_n;
      count_loop pages ids' file_cnt' page_cnt'
  end.

(** Lines 153 to 163. *)
Definition counts_of (search_data : pyval) : raises Counts :=
  query ← getitem search_data (PStr "query");
  pages ← getitem query (PStr "pages");
  ids ← iter pages;
  count_loop pages ids 0 0.

Section Oracles.

(** The remote endpoint: the answer to the [n]-th request of the run
    for a URL, [None] when [requests.get(url).json()] raises (no
    connection, a body that is not JSON). *)
Variable remote : nat → string → option pyval.

(** The random source: the [n]-th value of [random.randint(1, 1000)]. *)
Variable randint : nat → Z.

Definition requests_get_json (url : string) : M (option pyval) := λ w,
  (Ok (remote (length (requests w)) url),
   mkWorld (CALLBACK_EXPO w) (LICENSE_CACHE w) (data_file w)
           (requests w ++ [url]) (sleeps w) (draws w) (stdout w) (stderr w)).

Definition random_randint : M Z := λ w,
  (Ok (randint (draws w)),
   mkWorld (CALLBACK_EXPO w) (LICENSE_CACHE w) (data_file w)
           (requests w) (sleeps w) (S (draws w)) (stdout w) (stderr w)).

(** *** The backoff controller *)

Definition expo_backoff : M unit :=
  r ← random_randint;
  expo ← get_expo;
  let backoff := Backoff.backoff r expo in
  time_sleep (Qmin backoff (inject_Z Backoff.MAX_WAIT));;
  if Backoff.Qltb backoff (inject_Z Backoff.MAX_WAIT)
  then set_expo (S expo)
  else mret ().

Definition expo_backoff_reset : M unit := set_expo 0.

(** *** The two queries *)

(** The [except] clause of both queries, lines 120 to 130 and 164 to
    174; they differ in the key tested and in the message.
    [search_data] is [None] when the request itself raised, in which
    case the name is unbound in the handler.  [retry] stands for the
    recursive call, whose value the handler drops. *)
Definition handler {A} (key message : string) (retry : M (option A))
    (eb : bool) (search_data : option pyval) : M (option A) :=
  if eb then
    expo_backoff;;
    retry;;
    mret None
  else
    match search_data with
    | None => raise UnboundLocalError
    | Some data =>
        present ← lift (contains key data);
        if negb present then
          print_out (OutValue data);;
          print_out (OutText message);;
          mret None
        else
          print_err (OutText "ERROR (1) Unhandled exception:");;
          print_err OutTraceback;;
          print_err (OutText "None");;
          sys_exit 1
    end.

(** One level of [get_subcategories], with the recursive call as a
    parameter. *)
Definition get_subcategories_with (self : string → bool → M (option (list string)))
    (license : string) (eb : bool) : M (option (list string)) :=
  let request_url := get_subcat_request_url license in
  search_data ← requests_get_json request_url;
  match search_data ≫= (λ data, succeeded (cat_list_of data)) with
  | Some cat_list => mret (Some cat_list)
  | None =>
      handler "query" "This query will not be processed due to empty subcats."
              (self license false) eb search_data
  end.

(** The recursive call passes no [eb], so it runs with [eb=False] and
    does not recurse again: two levels are the whole function. *)
Definition get_subcategories : string → bool → M (option (list string)) :=
  get_subcategories_with (get_subcategories_with (λ _ _, out_of_fuel)).

Definition get_license_contents_with (self : string → bool → M (option Counts))
    (license : string) (eb : bool) : M (option Counts) :=
  let url := get_content_request_url license in
  search_data ← requests_get_json url;
  match search_data ≫= (λ data, succeeded (counts_of data)) with
  | Some search_data_dict => mret (Some search_data_dict)
  | None =>
      handler "queries" "This query will not be processed due to empty result."
              (self license false) eb search_data
  end.

Definition get_license_contents : string → bool → M (option Counts) :=
  get_license_contents_with (get_license_contents_with (λ _ _, out_of_fuel)).

(** *** The report writer *)

Definition set_up_data_file : M unit := file_append Header.

Definition record_license_data (license_type license_alias : string) : M unit :=
  search_result ← get_license_contents license_type false;
  match search_result with
  | None => raise TypeError
  | Some d => file_append (Row license_alias (total_file_cnt d) (total_page_cnt d))
  end.

(** *** The traversal *)

Definition cur_cat_of (alias : string) : string :=
  PyStr.last_item (PyStr.split "/" alias).

(** [fuel] is the depth of recursion the traversal may use: the number of
    nested calls of the function that fit under the recursion limit of
    the interpreter.  A call that does not fit ends the run with
    [OutOfFuel]. *)
Fixpoint recur_record_all_licenses (fuel : nat) (alias : string) : M unit :=
  match fuel with
  | O => out_of_fuel
  | S fuel' =>
      let cur_cat := cur_cat_of alias in
      subcategories ← get_subcategories cur_cat false;
      cached ← cache_contains cur_cat;
      if negb cached then
        record_license_data cur_cat alias;;
        cache_set cur_cat true;;
        print_out (OutText ("DEBUG Logged " +:+ cur_cat +:+ " from " +:+ alias));;
        match subcategories with
        | None => raise TypeError
        | Some cats_list =>
            for_each cats_list
              (λ cats, recur_record_all_licenses fuel' (alias +:+ "/" +:+ cats))
        end
      else mret ()
  end.

(** [main], called while [DATA_WRITE_FILE] is [CWD]: the path of the
    report is built, the header written and the traversal run from the
    default root.  The global is restored on the last line only, so the
    definition does not describe a call that follows a [main] that
    raised. *)
Definition main (fuel : nat) : M unit :=
  set_up_data_file;;
  recur_record_all_licenses fuel "Free_Creative_Commons_licenses".

(** The [__main__] block of a run without keyboard events: the exit
    status of the process, [None] when the traversal needed more depth
    than [fuel].  The [except KeyboardInterrupt] clause, which exits with
    status 130, has no counterpart: nothing in the model raises that
    exception. *)
Definition script (fuel : nat) (w : World) : option Z * World :=
  match main fuel w with
  | (Ok _, w') => (Some 0%Z, w')
  | (Exited code, w') => (Some code, w')
  | (Raised _, w') =>
      (Some 1%Z,
       snd ((print_err (OutText "ERROR (1) Unhandled exception:");;
             print_err OutTraceback;;
             print_err (OutText "None")) w'))
  | (OutOfFuel, w') => (None, w')
  end.

End Oracles.

End Crawler.

Import Crawler.

(** ** Repeated waits *)

(** [n] consecutive calls of [expo_backoff] with no reset in between. *)
Fixpoint backoff_calls (randint : nat → Z) (n : nat) : M unit :=
  match n with
  | O => mret ()
  | S k => expo_backoff randint;; backoff_calls randint k
  end.

(** ** The specification's reading of the operations *)

Module Spec.

(** Removing a leading [p] from [s], when there is one. *)
Fixpoint drop_chars (n : nat) (s : string) : string :=
  match n, s with
  | S k, String _ rest => drop_chars k rest
  | _, _ => s
  end.

Definition strip_prefix (p s : string) : string :=
  if String.prefix p s then drop_chars (String.length p) s else s.

(** Every ampersand becomes ["%26"]. *)
Fixpoint escape_ampersands (s : string) : string :=
  match s with
  | EmptyString => EmptyString
  | String c rest =>
      if Ascii.eqb c "&" then "%26" +:+ escape_ampersands rest
      else String c (escape_ampersands rest)
  end.

(** The name [list_subcategories] gives for a raw title. *)
Definition subcategory_name (title : string) : string :=
  escape_ampersands (strip_prefix "Category:" title).

(** A listed member that carries the raw title [t]. *)
Definition has_title (member : pyval) (t : string) : Prop :=
  ∃ e, member = PDict e ∧ e !! "title" = Some (PStr t).

(** A page-info entry that reports the pair [fp] of a file count and a
    page count, whatever else it holds. *)
Definition reports (entry : pyval) (fp : Z * Z) : Prop :=
  ∃ e info, entry = PDict e
    ∧ e !! "categoryinfo" = Some (PDict info)
    ∧ info !! "files" = Some (PInt fp.1)
    ∧ info !! "pages" = Some (PInt fp.2).

Definition Zsum (l : list Z) : Z := foldr Z.add 0%Z l.

(** The category a row stands for: the last segment of its alias. *)
Definition row_category (l : Line) : string :=
  match l with
  | Row alias _ _ => cur_cat_of alias
  | Header => EmptyString
  end.

Section Graph.

(** A category graph: the names the subcategory listing gives for a
    category, in the order of the listing, and its content metrics. *)
Variable children : string → list string.
Variable metrics : string → Z * Z.

(** The children of a category, one after the other. *)
Fixpoint visit_each
    (visit1 : string → string → gset string → option (list Line * gset string))
    (alias : string) (cs : list string) (visited : gset string)
  : option (list Line * gset string) :=
  match cs with
  | [] => Some ([], visited)
  | c :: cs' =>
      match visit1 c (alias +:+ "/" +:+ c) visited with
      | Some (rows1, visited1) =>
          match visit_each visit1 alias cs' visited1 with
          | Some (rows2, visited2) => Some ((rows1 ++ rows2)%list, visited2)
          | None => None
          end
      | None => None
      end
  end.

(** [visit(category, alias)] of the traversal engine: nothing for a
    visited category; otherwise the row of the category, the mark, then
    the children in listing order.  The result is the rows in the
    order they are recorded and the visited set at the end; [fuel]
    bounds the depth. *)
Fixpoint visit (fuel : nat) (category alias : string) (visited : gset string)
  : option (list Line * gset string) :=
  match fuel with
  | O => None
  | S fuel' =>
      if decide (category ∈ visited) then Some ([], visited)
      else
        match visit_each (visit fuel') alias (children category)
                         ({[category]} ∪ visited) with
        | Some (rows, visited') =>
            Some (Row alias (metrics category).1 (metrics category).2 :: rows, visited')
        | None => None
        end
  end.

(** The endpoint answers as the graph says on a finite set [U] of
    categories that is closed under [children]: at every request the
    listing of a category of [U] parses to its children and its
    category-info answer to its metrics. *)
Definition finite_category_graph (remote : nat → string → option pyval)
    (U : gset string) : Prop :=
  (∀ n c, c ∈ U →
     ∃ data, remote n (get_subcat_request_url c) = Some data
             ∧ cat_list_of data = inr (children c))
  ∧ (∀ n c, c ∈ U →
       ∃ data, remote n (get_content_request_url c) = Some data
               ∧ counts_of data = inr (mkCounts (metrics c).1 (metrics c).2))
  ∧ (∀ c c', c ∈ U → c' ∈ children c → c' ∈ U).

(** What a finished exploration leaves: the visited set has grown to
    [visited'], every category added has all its children in [visited'],
    and the rows are those of the categories added. *)
Definition explored (visited : gset string) (rows : list Line)
    (visited' : gset string) : Prop :=
  visited ⊆ visited'
  ∧ (∀ x y, x ∈ visited' → x ∉ visited → y ∈ children x → y ∈ visited')
  ∧ (∀ x, x ∈ (row_category <$> rows) ↔ x ∈ visited' ∧ x ∉ visited).

(** [c'] can be reached from [c] along [children]. *)
Inductive reachable (c : string) : string → Prop :=
| reachable_refl : reachable c c
| reachable_step c' c'' : reachable c c' → c'' ∈ children c' → reachable c c''.

End Graph.

(** No name of [U] has a slash: the last segment of an alias is then the
    category the alias was built from. *)
Definition slash_free (U : gset string) : Prop :=
  ∀ c, c ∈ U → PyStr.contains "/" c = false.

(** Relations between the state before a call and the state after it. *)

(** The backoff controller was not used. *)
Definition backoff_untouched (w w' : World) : Prop :=
  CALLBACK_EXPO w' = CALLBACK_EXPO w ∧ sleeps w' = sleeps w ∧ draws w' = draws w.

(** Neither the report nor the cache changed. *)
Definition store_untouched (w w' : World) : Prop :=
  LICENSE_CACHE w' = LICENSE_CACHE w ∧ data_file w' = data_file w.

(** The call appended data rows for pairwise distinct categories, none of
    which was in the cache before and all of which are in it after; the
    cache only grew. *)
Definition rows_fresh (w w' : World) : Prop :=
  ∃ rows,
    data_file w' = (data_file w ++ rows)%list
    ∧ Forall (λ l, is_row l = true) rows
    ∧ NoDup (row_category <$> rows)
    ∧ (∀ c, c ∈ (row_category <$> rows) →
         (c ∉ dom (LICENSE_CACHE w)) ∧ c ∈ dom (LICENSE_CACHE w'))
    ∧ dom (LICENSE_CACHE w) ⊆ dom (LICENSE_CACHE w').

(** [R] relates every state to the state [m] leaves, however [m] ends. *)
Definition stable {A} (R : relation World) (m : M A) : Prop :=
  ∀ w, R w (m w).2.

End Spec.

(** ** Concrete responses and endpoints *)

Module Examples.

(** A subcategory listing with the given raw titles. *)
Definition subcat_response (titles : list string) : pyval :=
  PDict {[ "query" :=
    PDict {[ "categorymembers" :=
      PList ((λ t, PDict {[ "title" := PStr t ]}) <$> titles) ]} ]}.

(** A category-info answer with one entry per page id. *)
Definition page_entry (fp : Z * Z) : pyval :=
  PDict {[ "categoryinfo" :=
    PDict (<[ "files" := PInt fp.1 ]> {[ "pages" := PInt fp.2 ]}) ]}.

Definition content_response (entries : list (string * (Z * Z))) : pyval :=
  PDict {[ "query" :=
    PDict {[ "pages" := PDict (list_to_map (prod_map id page_entry <$> entries)) ]} ]}.

(** An endpoint that answers from a table of URLs, the same way at every
    request; a URL that is not in the table makes the request raise. *)
Definition table_remote (table : list (string * pyval)) : nat → string → option pyval :=
  λ _ url, snd <$> List.find (λ p, String.eqb (fst p) url) table.

(** The two answers for a category with the given children and counts. *)
Definition category (name : string) (kids : list string) (fp : Z * Z)
  : list (string * pyval) :=
  [ (get_subcat_request_url name, subcat_response ((λ k, "Category:" +:+ k) <$> kids));
    (get_content_request_url name, content_response [("1", fp)]) ].

(** A random source that always draws the same number. *)
Definition constant_draw (r : Z) : nat → Z := λ _, r.

(** Root ["A"] with files 2, pages 4 and the subcategory ["B"], which has
    files 0, pages 1 and no subcategory. *)
Definition remote_AB : nat → string → option pyval :=
  table_remote (category "A" ["B"] (2, 4)%Z ++ category "B" [] (0, 1)%Z).

Definition children_AB (c : string) : list string :=
  if String.eqb c "A" then ["B"] else [].

Definition metrics_AB (c : string) : Z * Z :=
  if String.eqb c "A" then (2, 4)%Z else if String.eqb c "B" then (0, 1)%Z else (0, 0)%Z.

(** A cycle: ["A"] lists ["B"] and ["B"] lists ["A"]. *)
Definition remote_cycle : nat → string → option pyval :=
  table_remote (category "A" ["B"] (2, 4)%Z ++ category "B" ["A"] (0, 1)%Z).

Definition children_cycle (c : string) : list string :=
  if String.eqb c "A" then ["B"] else if String.eqb c "B" then ["A"] else [].

(** A diamond: ["A"] lists ["B"] and ["C"], and both list ["D"]. *)
Definition remote_diamond : nat → string → option pyval :=
  table_remote (category "A" ["B"; "C"] (1, 1)%Z ++ category "B" ["D"] (2, 2)%Z
                ++ category "C" ["D"] (3, 3)%Z ++ category "D" [] (4, 4)%Z).

(** The default root lists ["CC-BY"] and ["CC-BY-SA"]; the category-info
    answer for ["CC-BY"] is an error object without a ["query"] field. *)
Definition error_object : pyval :=
  PDict {[ "error" := PDict {[ "code" := PStr "invalidcategory" ]} ]}.

Definition remote_empty_result : nat → string → option pyval :=
  table_remote (category "Free_Creative_Commons_licenses" ["CC-BY"; "CC-BY-SA"] (2, 4)%Z
                ++ [ (get_subcat_request_url "CC-BY", subcat_response []);
                     (get_content_request_url "CC-BY", error_object) ]
                ++ category "CC-BY-SA" [] (5, 6)%Z).

(** An endpoint whose first request fails and which answers every later
    one as [remote_AB] does. *)
Definition remote_flaky : nat → string → option pyval :=
  λ n url, match n with O => None | S _ => remote_AB n url end.

(** A state in which ["A"] has been recorded. *)
Definition world_A_visited : World :=
  mkWorld 0 {[ "A" := true ]} [Header; Row "A" 2 4] [] [] 0 [] [].

(** A category-info answer with two page ids. *)
Definition two_pages : pyval := content_response [("11", (3, 5)%Z); ("12", (1, 2)%Z)].

(** A name with a slash: ["A"] lists ["X/Y"], which has files 7, pages 7
    and no subcategory; ["Y"] is another category, with files 5, pages 5
    and no subcategory. *)
Definition remote_slash : nat → string → option pyval :=
  table_remote (category "A" ["X/Y"] (2, 4)%Z ++ category "X/Y" [] (7, 7)%Z
                ++ category "Y" [] (5, 5)%Z).

Definition children_slash (c : string) : list string :=
  if String.eqb c "A" then ["X/Y"] else [].

Definition metrics_slash (c : string) : Z * Z :=
  if String.eqb c "A" then (2, 4)%Z
  else if String.eqb c "X/Y" then (7, 7)%Z
  else if String.eqb c "Y" then (5, 5)%Z else (0, 0)%Z.

(** The two answers for a title that is not a category: an empty listing
    and a page entry without counts. *)
Definition missing_category (name : string) : list (string * pyval) :=
  [ (get_subcat_request_url name, subcat_response []);
    (get_content_request_url name,
     PDict {[ "query" :=
       PDict {[ "pages" :=
         PDict {[ "-1" :=
           PDict (<[ "title" := PStr ("Category:" +:+ name) ]>
                    {[ "missing" := PStr "" ]}) ]} ]} ]}) ].

(** A cycle through a name with a slash: ["A"] lists ["X/B"] and ["X/B"]
    lists ["A"]; there is no category ["B"]. *)
Definition remote_slash_cycle : nat → string → option pyval :=
  table_remote (category "A" ["X/B"] (2, 4)%Z ++ category "X/B" ["A"] (0, 1)%Z
                ++ missing_category "B").

Definition children_slash_cycle (c : string) : list string :=
  if String.eqb c "A" then ["X/B"] else if String.eqb c "X/B" then ["A"] else [].

Definition metrics_slash_cycle (c : string) : Z * Z :=
  if String.eqb c "A" then (2, 4)%Z else if String.eqb c "X/B" then (0, 1)%Z else (0, 0)%Z.

(** A chain: ["A"] lists ["B"], ["B"] lists ["C"], ["C"] lists nothing. *)
Definition remote_chain : nat → string → option pyval :=
  table_remote (category "A" ["B"] (1, 1)%Z ++ category "B" ["C"] (2, 2)%Z
                ++ category "C" [] (3, 3)%Z).

Definition children_chain (c : string) : list string :=
  if String.eqb c "A" then ["B"] else if String.eqb c "B" then ["C"] else [].

Definition metrics_chain (c : string) : Z * Z :=
  if String.eqb c "A" then (1, 1)%Z
  else if String.eqb c "B" then (2, 2)%Z
  else if String.eqb c "C" then (3, 3)%Z else (0, 0)%Z.

(** The state at process start when the report file of the day already
    holds [file]: [open(..., "a")] appends to it. *)
Definition process_start (file : list Line) : World :=
  mkWorld 0 ∅ file [] [] 0 [] [].

End Examples.

(** ** Relations and predicates for the invariants of a run *)

Module Invariants.

(** What the script prints on the error stream before it exits with
    status 1: lines 128 and 129, 172 and 173, 249 and 250.  [print] of the
    value of [traceback.print_exc()] prints the traceback and then
    ["None"]. *)
Definition error_report : list Output :=
  [OutText "ERROR (1) Unhandled exception:"; OutTraceback; OutText "None"].

(** The cache after the call is the cache before it with a [True] mark
    for exactly the categories of the rows the call appended. *)
Definition in_sync (w w' : World) : Prop :=
  ∃ rows,
    data_file w' = (data_file w ++ rows)%list
    ∧ ∀ k, LICENSE_CACHE w' !! k =
             if decide (k ∈ (Spec.row_category <$> rows)) then Some true
             else LICENSE_CACHE w !! k.

(** The line [recur_record_all_licenses] prints after it has recorded a
    row, line 224. *)
Definition debug_line (l : Line) : Output :=
  match l with
  | Row alias _ _ =>
      OutText ("DEBUG Logged " +:+ cur_cat_of alias +:+ " from " +:+ alias)
  | Header => OutText ""
  end.

(** The printed item starts with ["DEBUG "].  [print] of a string prints
    the string itself, so an answer that is a bare JSON string can start
    that way; of any other answer it prints the [repr], which starts with
    a brace, a bracket, a digit, a sign or one of [None], [True] and
    [False]. *)
Definition is_debug (o : Output) : bool :=
  match o with
  | OutText s => String.prefix "DEBUG " s
  | OutValue (PStr s) => String.prefix "DEBUG " s
  | OutValue _ => false
  | OutTraceback => false
  end.

(** The call appended rows to the report and items to the output stream,
    and the items that start with ["DEBUG "] are the debug lines of the
    rows, in order. *)
Definition logged (w w' : World) : Prop :=
  ∃ rows outs,
    data_file w' = (data_file w ++ rows)%list
    ∧ Forall (λ l, is_row l = true) rows
    ∧ stdout w' = (stdout w ++ outs)%list
    ∧ List.filter is_debug outs = debug_line <$> rows.

(** The requests made before the call are still there, in order. *)
Definition requests_grow (w w' : World) : Prop :=
  ∃ more, requests w' = (requests w ++ more)%list.

End Invariants.

(** * Properties *)

Import Backoff Spec.

(** ** The backoff controller *)

Section BackoffFacts.

Lemma Qltb_lt (a b : Q) : Qltb a b = true ↔ (a < b)%Q.
Proof.
  unfold Qltb. rewrite negb_true_iff, <- not_true_iff_false, Qle_bool_iff.
  split; [apply Qnot_le_lt | apply Qlt_not_le].
Qed.

Lemma Qltb_ge (a b : Q) : Qltb a b = false ↔ (b <= a)%Q.
Proof. unfold Qltb. by rewrite negb_false_iff, Qle_bool_iff. Qed.

Lemma pow2_mono (e e' : nat) :
  e ≤ e' →
  (inject_Z (CALLBACK_INDEX ^ Z.of_nat e) <= inject_Z (CALLBACK_INDEX ^ Z.of_nat e'))%Q.
Proof.
  intros He. rewrite <- Zle_Qle.
  apply Z.pow_le_mono_r; unfold CALLBACK_INDEX; lia.
Qed.

Lemma jitter_range (r : Z) :
  (1 ≤ r ≤ 1000)%Z → (1 # 1000 <= jitter r)%Q ∧ (jitter r <= 1)%Q.
Proof. intros [H1 H2]. unfold jitter, Qle. simpl. lia. Qed.

Lemma sleep_time_capped (r : Z) (e : nat) : (sleep_time r e <= inject_Z MAX_WAIT)%Q.
Proof. unfold sleep_time. apply Q.le_min_r. Qed.

Lemma min_sleep_mono (e e' : nat) : e ≤ e' → (min_sleep e <= min_sleep e')%Q.
Proof.
  intros He. unfold min_sleep, sleep_time, backoff.
  apply Q.min_le_compat_r, Qplus_le_r. by apply pow2_mono.
Qed.

Lemma next_expo_S (r : Z) (e : nat) :
  next_expo r e = S e ↔ (backoff r e < inject_Z MAX_WAIT)%Q.
Proof.
  unfold next_expo. destruct (Qltb _ _) eqn:Hlt.
  - apply Qltb_lt in Hlt. tauto.
  - apply Qltb_ge in Hlt. split; [lia | intros Hb]. by apply Qlt_not_le in Hb.
Qed.

Lemma next_expo_same (r : Z) (e : nat) :
  next_expo r e = e ↔ (inject_Z MAX_WAIT <= backoff r e)%Q.
Proof.
  unfold next_expo. destruct (Qltb _ _) eqn:Hlt.
  - apply Qltb_lt in Hlt. split; [lia | intros Hb]. by apply Qlt_not_le in Hlt.
  - apply Qltb_ge in Hlt. tauto.
Qed.

Lemma next_expo_ge (r : Z) (e : nat) : e ≤ next_expo r e.
Proof. unfold next_expo. destruct (Qltb _ _); lia. Qed.

(** Below exponent 6 the unclamped delay is under the ceiling, from 6 on
    it is not. *)
Lemma backoff_below (r : Z) (e : nat) :
  (r ≤ 1000)%Z → e ≤ 5 → (backoff r e < inject_Z MAX_WAIT)%Q.
Proof.
  intros Hr He. unfold backoff.
  assert (jitter r <= 1)%Q as Hj by (unfold jitter, Qle; simpl; lia).
  pose proof (pow2_mono e 5 He) as Hp.
  change (inject_Z (CALLBACK_INDEX ^ Z.of_nat 5)) with 32%Q in Hp.
  change (inject_Z MAX_WAIT) with 64%Q. lra.
Qed.

Lemma backoff_above (r : Z) (e : nat) :
  (0 ≤ r)%Z → 6 ≤ e → (inject_Z MAX_WAIT <= backoff r e)%Q.
Proof.
  intros Hr He. unfold backoff.
  assert (0 <= jitter r)%Q as Hj by (unfold jitter, Qle; simpl; lia).
  pose proof (pow2_mono 6 e He) as Hp.
  change (inject_Z (CALLBACK_INDEX ^ Z.of_nat 6)) with 64%Q in Hp.
  change (inject_Z MAX_WAIT) with 64%Q. lra.
Qed.

Lemma saturated_from_6 (r : Z) (e : nat) :
  (r ≤ 1000)%Z → (inject_Z MAX_WAIT <= backoff r e)%Q → 6 ≤ e.
Proof.
  intros Hr Hb. destruct (decide (e ≤ 5)) as [He|]; [|lia].
  apply (backoff_below r e Hr) in He. by apply Qlt_not_le in He.
Qed.

Variable randint : nat → Z.

(** What one call does to the state. *)
Lemma expo_backoff_run (w : World) :
  expo_backoff randint w =
    (Ok (),
     mkWorld (next_expo (randint (draws w)) (CALLBACK_EXPO w)) (LICENSE_CACHE w)
             (data_file w) (requests w)
             (sleeps w ++ [sleep_time (randint (draws w)) (CALLBACK_EXPO w)])
             (S (draws w)) (stdout w) (stderr w)).
Proof.
  unfold expo_backoff, next_expo, sleep_time, mbind, M_bind,
    random_randint, get_expo, time_sleep, set_expo, mret, M_ret. simpl.
  by destruct (Qltb _ _).
Qed.

Hypothesis randint_range : ∀ k, (1 ≤ randint k ≤ 1000)%Z.

Lemma backoff_calls_run (n : nat) : ∀ w,
  ∃ wn ts,
    backoff_calls randint n w = (Ok (), wn)
    ∧ sleeps wn = (sleeps w ++ ts)%list
    ∧ length ts = n
    ∧ Forall (λ t, (t <= inject_Z MAX_WAIT)%Q) ts
    ∧ CALLBACK_EXPO w ≤ CALLBACK_EXPO wn
    ∧ (CALLBACK_EXPO w ≤ 6 → CALLBACK_EXPO wn ≤ 6)
    ∧ (6 ≤ CALLBACK_EXPO w → CALLBACK_EXPO wn = CALLBACK_EXPO w).
Proof.
  induction n as [|n IH]; intros w.
  - exists w, []. simpl. rewrite app_nil_r. by repeat split.
  - simpl. unfold mbind, M_bind. rewrite expo_backoff_run.
    match goal with |- context [backoff_calls randint n ?w1] =>
      destruct (IH w1) as (wn & ts & Hrun & Hsl & Hlen & Hcap & Hle & Hmax & Hsat) end.
    simpl in *. exists wn, (sleep_time (randint (draws w)) (CALLBACK_EXPO w) :: ts).
    split; [done|]. split; [by rewrite Hsl, <- app_assoc|].
    split; [simpl; lia|]. split; [constructor; [apply sleep_time_capped | done]|].
    pose proof (next_expo_ge (randint (draws w)) (CALLBACK_EXPO w)).
    split; [lia|]. split.
    { intros He. apply Hmax. unfold next_expo. destruct (Qltb _ _) eqn:Hlt; [|done].
      apply Qltb_lt in Hlt.
      destruct (decide (CALLBACK_EXPO w ≤ 5)) as [|Hn]; [lia|].
      assert (6 ≤ CALLBACK_EXPO w) as H6 by lia.
      apply (backoff_above (randint (draws w))) in H6;
        [by apply Qlt_not_le in Hlt | specialize (randint_range (draws w)); lia]. }
    intros H6.
    assert (next_expo (randint (draws w)) (CALLBACK_EXPO w) = CALLBACK_EXPO w) as Hn.
    { apply next_expo_same, backoff_above; [|done]. specialize (randint_range (draws w)). lia. }
    rewrite Hn in Hsat. by apply Hsat.
Qed.

End BackoffFacts.

(** C8. One call of [expo_backoff] with the draw [r] at the exponent [e]
    sleeps for the smaller of [r / 1000 + 2 ^ e] and 64 seconds, so never
    for more than 64.  The exponent goes up by one exactly when the
    unclamped delay [r / 1000 + 2 ^ e] is below 64, which is when [e] is
    at most 5, and stays as it is exactly when the unclamped delay has
    reached 64, which is from [e = 6] on.  Over any further calls without
    a reset every sleep is at most 64, the exponent and with it the least
    possible sleep [min (1 / 1000 + 2 ^ e) 64] never go down, the exponent
    does not pass 6 when it started at 6 or below, and once the unclamped
    delay has reached the ceiling the exponent no longer changes. *)
Theorem expo_backoff_capped_and_saturating (randint : nat → Z) (w : World) :
  (∀ k, (1 ≤ randint k ≤ 1000)%Z) →
  let r := randint (draws w) in
  let e := CALLBACK_EXPO w in
  let unclamped := ((r # 1000) + inject_Z (2 ^ Z.of_nat e))%Q in
  let least (e : nat) := Qmin ((1 # 1000) + inject_Z (2 ^ Z.of_nat e)) 64 in
  ∃ w1,
    expo_backoff randint w = (Ok (), w1)
    ∧ sleeps w1 = (sleeps w ++ [Qmin unclamped 64])%list
    ∧ (Qmin unclamped 64 <= 64)%Q
    ∧ (CALLBACK_EXPO w1 = S e ↔ (unclamped < 64)%Q)
    ∧ (CALLBACK_EXPO w1 = e ↔ (64 <= unclamped)%Q)
    ∧ (CALLBACK_EXPO w1 = S e ↔ e ≤ 5)
    ∧ (CALLBACK_EXPO w1 = e ↔ 6 ≤ e)
    ∧ (least e <= least (CALLBACK_EXPO w1))%Q
    ∧ ∀ n, ∃ wn ts,
        backoff_calls randint n w1 = (Ok (), wn)
        ∧ sleeps wn = (sleeps w1 ++ ts)%list
        ∧ length ts = n
        ∧ Forall (λ t, (t <= 64)%Q) ts
        ∧ CALLBACK_EXPO w1 ≤ CALLBACK_EXPO wn
        ∧ (least (CALLBACK_EXPO w1) <= least (CALLBACK_EXPO wn))%Q
        ∧ (e ≤ 6 → CALLBACK_EXPO wn ≤ 6)
        ∧ ((64 <= unclamped)%Q → CALLBACK_EXPO wn = e).
Proof.
  intros Hrange r e unclamped least.
  assert (r ≤ 1000 ∧ 0 ≤ r)%Z as [Hr1 Hr0]
    by (specialize (Hrange (draws w)); fold r in Hrange; lia).
  eexists. split; [apply expo_backoff_run|]. simpl. fold r e.
  split; [done|]. split; [apply (sleep_time_capped r e)|].
  split; [apply next_expo_S|]. split; [apply next_expo_same|].
  split.
  { rewrite next_expo_S. split; [|by apply backoff_below].
    intros Hlt. destruct (decide (e ≤ 5)) as [|Hn]; [done|].
    assert (6 ≤ e) as H6 by lia. apply (backoff_above r e Hr0) in H6.
    by apply Qlt_not_le in Hlt. }
  split.
  { rewrite next_expo_same. split; [by apply saturated_from_6 | by apply backoff_above]. }
  split; [apply (min_sleep_mono e), next_expo_ge|].
  intros n.
  match goal with |- context [backoff_calls randint n ?w1] =>
    destruct (backoff_calls_run randint Hrange n w1)
      as (wn & ts & Hrun & Hsl & Hlen & Hcap & Hle & Hmax & Hsat) end.
  simpl in *. exists wn, ts. repeat split; try done.
  - by apply (min_sleep_mono (next_expo r e)).
  - intros He. fold r e in Hmax.
    assert (next_expo r e ≤ 6) as Hn; [|lia].
    unfold next_expo. destruct (Qltb _ _) eqn:Hlt; [|done].
    apply Qltb_lt in Hlt. destruct (decide (e ≤ 5)) as [|Hn]; [lia|].
    assert (6 ≤ e) as H6 by lia. apply (backoff_above r e Hr0) in H6.
    by apply Qlt_not_le in Hlt.
  - intros Hb. pose proof Hb as Hb'. apply next_expo_same in Hb'. fold r e in Hsat.
    rewrite Hb' in Hsat. apply Hsat. by apply (saturated_from_6 r e).
Qed.

Lemma expo_backoff_capped_and_saturating_witness :
  (∀ k, (1 ≤ Examples.constant_draw 500 k ≤ 1000)%Z)
  ∧ ∃ w1,
      expo_backoff (Examples.constant_draw 500) initial = (Ok (), w1)
      ∧ sleeps w1 = [Qmin ((500 # 1000) + inject_Z (2 ^ 0)) 64]
      ∧ CALLBACK_EXPO w1 = 1
      ∧ ∃ w7 ts,
          backoff_calls (Examples.constant_draw 500) 7 w1 = (Ok (), w7)
          ∧ sleeps w7 = (sleeps w1 ++ ts)%list
          ∧ length ts = 7
          ∧ CALLBACK_EXPO w7 ≤ 6.
Proof.
  assert (∀ k, (1 ≤ Examples.constant_draw 500 k ≤ 1000)%Z) as Hrange
    by (intros k; unfold Examples.constant_draw; lia).
  split; [exact Hrange|].
  destruct (expo_backoff_capped_and_saturating (Examples.constant_draw 500) initial Hrange)
    as (w1 & Hrun & Hsl & _ & _ & _ & Hup & _ & _ & Hcalls).
  exists w1. split; [done|]. split; [done|].
  split; [apply Hup; simpl; lia|].
  destruct (Hcalls 7) as (w7 & ts & Hrun7 & Hsl7 & Hlen & _ & _ & _ & Hmax & _).
  exists w7, ts. repeat split; try done. apply Hmax. simpl. lia.
Defined.

(** C9. The jitter is [random.randint(1, 1000) / 1000] and [randint]
    includes both bounds: at the draw 1000 the jitter is 1, above 0.999,
    and a first call of [expo_backoff] then sleeps 1 + 1 seconds. *)
Theorem jitter_reaches_one :
  (1 ≤ 1000 ≤ 1000)%Z
  ∧ (jitter 1000 == 1)%Q
  ∧ ¬ (jitter 1000 <= 999 # 1000)%Q
  ∧ ∃ t, sleeps (expo_backoff (Examples.constant_draw 1000) initial).2 = [t] ∧ (t == 2)%Q.
Proof.
  split; [lia|]. split; [reflexivity|]. split.
  - unfold jitter, Qle. simpl. lia.
  - rewrite expo_backoff_run. simpl. eexists. split; [reflexivity|]. reflexivity.
Qed.

(** ** Strings *)

Section StringFacts.

Lemma prefix_amp (c : ascii) (s : string) :
  String.prefix "&" (String c s) = Ascii.eqb c "&".
Proof.
  change (String.prefix "&" (String c s))
    with (if ascii_dec "&" c then String.prefix "" s else false).
  destruct (ascii_dec "&" c) as [<-|Hne].
  - by destruct s.
  - symmetry. apply Ascii.eqb_neq. congruence.
Qed.

Lemma replace_amp (s : string) :
  PyStr.replace "&" "%26" s = Spec.escape_ampersands s.
Proof.
  unfold PyStr.replace. induction s as [|c s IH]; [done|].
  cbn [PyStr.replace_from Spec.escape_ampersands]. rewrite prefix_amp.
  destruct (Ascii.eqb c "&"); simpl; by rewrite IH.
Qed.

Lemma replace_absent (old new s : string) :
  PyStr.contains old s = false → PyStr.replace old new s = s.
Proof.
  unfold PyStr.replace. induction s as [|c s IH]; [done|].
  cbn [PyStr.contains PyStr.replace_from]. intros [Hp Hc]%orb_false_iff.
  rewrite Hp. f_equal. by apply IH.
Qed.

Lemma append_cons (a : ascii) (p s : string) : String a p +:+ s = String a (p +:+ s).
Proof. reflexivity. Qed.

Lemma prefix_nil (s : string) : String.prefix "" s = true.
Proof. by destruct s. Qed.

Lemma prefix_cons (a b : ascii) (p s : string) :
  String.prefix (String a p) (String b s) = if ascii_dec a b then String.prefix p s else false.
Proof. reflexivity. Qed.

Lemma prefix_app (p s : string) : String.prefix p (p +:+ s) = true.
Proof.
  induction p as [|a p IH]; [apply prefix_nil|].
  rewrite append_cons, prefix_cons. by destruct (ascii_dec a a).
Qed.

Lemma replace_from_skip (old new p s : string) :
  PyStr.replace_from old new (String.length p) (p +:+ s) = PyStr.replace_from old new 0 s.
Proof. induction p as [|a p IH]; [by destruct s|]. rewrite append_cons. exact IH. Qed.

Lemma replace_match (a : ascii) (p new s : string) :
  PyStr.replace (String a p) new (String a p +:+ s) = new +:+ PyStr.replace (String a p) new s.
Proof.
  unfold PyStr.replace. rewrite append_cons. cbn [PyStr.replace_from].
  rewrite <- append_cons, prefix_app.
  replace (String.length (String a p) - 1) with (String.length p) by (simpl; lia).
  by rewrite replace_from_skip.
Qed.

Lemma replace_leading (s : string) :
  PyStr.replace "Category:" "" ("Category:" +:+ s) = PyStr.replace "Category:" "" s.
Proof. by rewrite replace_match. Qed.

Lemma prefix_split (p s : string) :
  String.prefix p s = true → s = p +:+ Spec.drop_chars (String.length p) s.
Proof.
  revert s. induction p as [|a p IH]; intros s; [done|].
  destruct s as [|b s]; [done|].
  rewrite prefix_cons.
  destruct (ascii_dec a b) as [<-|]; [|done]. intros Hp.
  cbn [String.length Spec.drop_chars]. rewrite append_cons. f_equal. by apply IH.
Qed.

Lemma escape_no_amp (s : string) : PyStr.contains "&" (Spec.escape_ampersands s) = false.
Proof.
  induction s as [|c s IH]; [done|]. simpl.
  destruct (Ascii.eqb c "&") eqn:Hc.
  - simpl. exact IH.
  - cbn [PyStr.contains]. rewrite prefix_amp, Hc. exact IH.
Qed.

Lemma name_of_title (title : string) :
  PyStr.contains "Category:" (Spec.strip_prefix "Category:" title) = false →
  PyStr.replace "&" "%26" (PyStr.replace "Category:" "" title) = Spec.subcategory_name title.
Proof.
  unfold Spec.subcategory_name, Spec.strip_prefix. rewrite replace_amp.
  destruct (String.prefix "Category:" title) eqn:Hp; intros Hc.
  - apply prefix_split in Hp. rewrite Hp at 1. rewrite replace_leading.
    by rewrite replace_absent.
  - by rewrite replace_absent.
Qed.

End StringFacts.

(** ** The monad *)

Section MonadFacts.

Context {A B : Type}.

Lemma bind_ok (m : M A) (f : A → M B) (w w' : World) (a : A) :
  m w = (Ok a, w') → (m ≫= f) w = f a w'.
Proof. intros H. unfold mbind, M_bind. by rewrite H. Qed.

Lemma bind_raised (m : M A) (f : A → M B) (w w' : World) (e : Exn) :
  m w = (Raised e, w') → (m ≫= f) w = (Raised e, w').
Proof. intros H. unfold mbind, M_bind. by rewrite H. Qed.

Lemma bind_exited (m : M A) (f : A → M B) (w w' : World) (c : Z) :
  m w = (Exited c, w') → (m ≫= f) w = (Exited c, w').
Proof. intros H. unfold mbind, M_bind. by rewrite H. Qed.

Lemma bind_out_of_fuel (m : M A) (f : A → M B) (w w' : World) :
  m w = (OutOfFuel, w') → (m ≫= f) w = (OutOfFuel, w').
Proof. intros H. unfold mbind, M_bind. by rewrite H. Qed.

End MonadFacts.

(** ** Reading a subcategory listing *)

Section ListingFacts.

Variable remote : nat → string → option pyval.
Variable randint : nat → Z.

Lemma member_name_title (member : pyval) (t : string) :
  Spec.has_title member t →
  member_name member = inr (PyStr.replace "&" "%26" (PyStr.replace "Category:" "" t)).
Proof. intros (e & -> & Ht). unfold member_name. simpl. by rewrite Ht. Qed.

Lemma mapM_member_name (members : list pyval) (titles : list string) :
  Forall2 Spec.has_title members titles →
  mapM member_name members =
    inr ((λ t, PyStr.replace "&" "%26" (PyStr.replace "Category:" "" t)) <$> titles).
Proof.
  induction 1 as [|m t ms ts Hm _ IH]; [done|].
  simpl. rewrite (member_name_title m t Hm). simpl. by rewrite IH.
Qed.

Lemma cat_list_of_listing (d q : gmap string pyval) (members : list pyval)
    (titles : list string) :
  d !! "query" = Some (PDict q) →
  q !! "categorymembers" = Some (PList members) →
  Forall2 Spec.has_title members titles →
  cat_list_of (PDict d) =
    inr ((λ t, PyStr.replace "&" "%26" (PyStr.replace "Category:" "" t)) <$> titles).
Proof.
  intros Hq Hm Ht. unfold cat_list_of. simpl. rewrite Hq. simpl. rewrite Hm. simpl.
  by apply mapM_member_name.
Qed.

(** A listing that parses is returned as it is, after one request. *)
Lemma get_subcategories_parsed (license : string) (eb : bool) (w : World)
    (data : pyval) (names : list string) :
  remote (length (requests w)) (get_subcat_request_url license) = Some data →
  cat_list_of data = inr names →
  get_subcategories remote randint license eb w =
    (Ok (Some names), (requests_get_json remote (get_subcat_request_url license) w).2).
Proof.
  intros Hr Hp. unfold get_subcategories, get_subcategories_with, mbind, M_bind,
    requests_get_json. cbn. rewrite Hr. cbn. by rewrite Hp.
Qed.

End ListingFacts.

(** C7, as the code has it.  For a listing whose members carry the raw
    titles [titles], [get_subcategories] returns one name per title, in
    order: the title with every occurrence of ["Category:"] removed and
    then every ampersand replaced by ["%26"], so that no ampersand is left
    in a name.  When ["Category:"] occurs in the titles at most as their
    leading prefix, the names are the titles without that prefix and with
    every ampersand replaced; the title ["Category:Things & Stuff"] gives
    ["Things %26 Stuff"]. *)
Theorem get_subcategories_names (remote : nat → string → option pyval) (randint : nat → Z)
    (license : string) (eb : bool) (w : World)
    (d q : gmap string pyval) (members : list pyval) (titles : list string) :
  remote (length (requests w)) (get_subcat_request_url license) = Some (PDict d) →
  d !! "query" = Some (PDict q) →
  q !! "categorymembers" = Some (PList members) →
  Forall2 Spec.has_title members titles →
  (get_subcategories remote randint license eb w).1
    = Ok (Some ((λ t, Spec.escape_ampersands (PyStr.replace "Category:" "" t)) <$> titles))
  ∧ Forall (λ t, PyStr.contains "&"
                   (Spec.escape_ampersands (PyStr.replace "Category:" "" t)) = false) titles
  ∧ (Forall (λ t, PyStr.contains "Category:" (Spec.strip_prefix "Category:" t) = false)
       titles →
     (get_subcategories remote randint license eb w).1
       = Ok (Some (Spec.subcategory_name <$> titles)))
  ∧ member_name (PDict {[ "title" := PStr "Category:Things & Stuff" ]}) = inr "Things %26 Stuff".
Proof.
  intros Hr Hq Hm Ht.
  assert ((get_subcategories remote randint license eb w).1
          = Ok (Some ((λ t, Spec.escape_ampersands (PyStr.replace "Category:" "" t))
                        <$> titles))) as Hnames.
  { erewrite get_subcategories_parsed; [|exact Hr|by eapply cat_list_of_listing].
    cbn [fst]. do 2 f_equal. apply list_fmap_ext. intros _ t _. apply replace_amp. }
  split; [exact Hnames|]. split; [|split].
  - apply Forall_forall. intros t _. apply escape_no_amp.
  - intros Hc. rewrite Hnames. do 2 f_equal. apply list_eq_Forall2.
    rewrite Forall2_fmap. apply Forall_Forall2_diag.
    eapply Forall_impl; [exact Hc|]. intros t Hc'. cbn.
    rewrite <- replace_amp. by apply name_of_title.
  - by vm_compute.
Qed.

Lemma get_subcategories_names_witness :
  (get_subcategories Examples.remote_AB (Examples.constant_draw 1) "A" false initial).1
    = Ok (Some (Spec.subcategory_name <$> ["Category:B"])).
Proof.
  destruct (get_subcategories_names Examples.remote_AB (Examples.constant_draw 1) "A" false
              initial {[ "query" := PDict {[ "categorymembers" :=
                         PList [PDict {[ "title" := PStr "Category:B" ]}] ]} ]}
              {[ "categorymembers" := PList [PDict {[ "title" := PStr "Category:B" ]}] ]}
              [PDict {[ "title" := PStr "Category:B" ]}] ["Category:B"])
    as (_ & _ & Hnames & _).
  - reflexivity.
  - reflexivity.
  - reflexivity.
  - repeat constructor. by eexists.
  - apply Hnames. by repeat constructor.
Defined.

(** C7, as stated, fails on a title in which ["Category:"] occurs again
    after the prefix: every occurrence is removed, not only the prefix. *)
Lemma inner_namespace_marker_removed :
  member_name (PDict {[ "title" := PStr "Category:A Category:B" ]}) = inr "A B"
  ∧ Spec.subcategory_name "Category:A Category:B" = "A Category:B"
  ∧ member_name (PDict {[ "title" := PStr "Category:A Category:B" ]})
      ≠ inr (Spec.subcategory_name "Category:A Category:B").
Proof. split; [by vm_compute|]. split; [by vm_compute|]. by vm_compute. Qed.

(** ** Reading a category-info answer *)

Section CountFacts.

Variable remote : nat → string → option pyval.
Variable randint : nat → Z.

Lemma count_loop_sum (pages : gmap string pyval) (counts : string → Z * Z)
    (ids : list string) : ∀ file_cnt page_cnt,
  (∀ id, id ∈ ids → ∃ entry, pages !! id = Some entry ∧ Spec.reports entry (counts id)) →
  count_loop (PDict pages) (PStr <$> ids) file_cnt page_cnt =
    inr (mkCounts (file_cnt + Spec.Zsum ((λ id, (counts id).1) <$> ids))
                  (page_cnt + Spec.Zsum ((λ id, (counts id).2) <$> ids))).
Proof.
  induction ids as [|id ids IH]; intros file_cnt page_cnt Hids.
  - simpl. by rewrite !Z.add_0_r.
  - destruct (Hids id) as (entry & Hentry & e & info & -> & Hinfo & Hf & Hp);
      [by left|].
    cbn [fmap list_fmap count_loop]. cbn. rewrite Hentry. cbn. rewrite Hinfo. cbn.
    rewrite Hf. cbn. rewrite Hp. cbn.
    rewrite IH by (intros id' Hid'; apply Hids; by right).
    by rewrite !Z.add_assoc.
Qed.

Lemma counts_of_pages (d q pages : gmap string pyval) (counts : string → Z * Z) :
  d !! "query" = Some (PDict q) →
  q !! "pages" = Some (PDict pages) →
  (∀ id entry, pages !! id = Some entry → Spec.reports entry (counts id)) →
  counts_of (PDict d) =
    inr (mkCounts (Spec.Zsum ((λ id, (counts id).1) <$> (map_to_list pages).*1))
                  (Spec.Zsum ((λ id, (counts id).2) <$> (map_to_list pages).*1))).
Proof.
  intros Hq Hp Hentries. unfold counts_of. cbn. rewrite Hq. cbn. rewrite Hp. cbn.
  rewrite (count_loop_sum pages counts); [done|].
  intros id [[id' entry] [-> Hin]]%list_elem_of_fmap.
  apply elem_of_map_to_list in Hin. exists entry. split; [done|]. by apply Hentries.
Qed.

(** A category-info answer that parses is returned, after one request. *)
Lemma get_license_contents_parsed (license : string) (eb : bool) (w : World)
    (data : pyval) (c : Counts) :
  remote (length (requests w)) (get_content_request_url license) = Some data →
  counts_of data = inr c →
  get_license_contents remote randint license eb w =
    (Ok (Some c), (requests_get_json remote (get_content_request_url license) w).2).
Proof.
  intros Hr Hp. unfold get_license_contents, get_license_contents_with, mbind, M_bind,
    requests_get_json. cbn. rewrite Hr. cbn. by rewrite Hp.
Qed.

End CountFacts.

(** C6.  When the answer has a ["query"] with a ["pages"] mapping whose
    entries each report a file count and a page count,
    [get_license_contents] returns the sum of the file counts and the sum
    of the page counts over all page ids of the mapping; two page ids
    reporting 3, 5 and 1, 2 give 4 and 7. *)
Theorem get_license_contents_sums (remote : nat → string → option pyval) (randint : nat → Z)
    (license : string) (eb : bool) (w : World)
    (d q pages : gmap string pyval) (counts : string → Z * Z) :
  remote (length (requests w)) (get_content_request_url license) = Some (PDict d) →
  d !! "query" = Some (PDict q) →
  q !! "pages" = Some (PDict pages) →
  (∀ id entry, pages !! id = Some entry → Spec.reports entry (counts id)) →
  (get_license_contents remote randint license eb w).1 =
    Ok (Some (mkCounts (Spec.Zsum ((λ id, (counts id).1) <$> (map_to_list pages).*1))
                       (Spec.Zsum ((λ id, (counts id).2) <$> (map_to_list pages).*1))))
  ∧ (get_license_contents (λ _ _, Some Examples.two_pages) randint license eb w).1 =
      Ok (Some (mkCounts 4 7)).
Proof.
  intros Hr Hq Hp Hentries. split.
  - erewrite get_license_contents_parsed;
      [done|exact Hr|exact (counts_of_pages d q pages counts Hq Hp Hentries)].
  - rewrite (get_license_contents_parsed _ randint license eb w
               Examples.two_pages (mkCounts 4 7)); [done|done|by vm_compute].
Qed.

Lemma get_license_contents_sums_witness :
  (get_license_contents (λ _ _, Some Examples.two_pages) (Examples.constant_draw 1)
     "CC-BY-4.0" false initial).1
  = Ok (Some (mkCounts 4 7)).
Proof.
  pose (pages := list_to_map (prod_map id Examples.page_entry
                   <$> [("11", (3, 5)%Z); ("12", (1, 2)%Z)]) : gmap string pyval).
  pose (counts := λ id : string, if String.eqb id "11" then (3, 5)%Z else (1, 2)%Z).
  apply (get_license_contents_sums (λ _ _, Some Examples.two_pages)
           (Examples.constant_draw 1) "CC-BY-4.0" false initial
           {[ "query" := PDict {[ "pages" := PDict pages ]} ]}
           {[ "pages" := PDict pages ]} pages counts).
  - reflexivity.
  - reflexivity.
  - reflexivity.
  - intros id entry. unfold pages. simpl.
    destruct (decide (id = "11")) as [->|Hne1].
    + rewrite lookup_insert_eq. intros [= <-]. eexists _, _. by repeat split.
    + rewrite lookup_insert_ne by done.
      destruct (decide (id = "12")) as [->|Hne2].
      * rewrite lookup_insert_eq. intros [= <-]. eexists _, _. by repeat split.
      * rewrite lookup_insert_ne by done. by rewrite lookup_empty.
Defined.

(** ** The two queries and their handler *)

Section QueryFacts.

Variable remote : nat → string → option pyval.
Variable randint : nat → Z.

(** The [except] clause without backoff: what it does for each shape of
    [search_data]. *)
Lemma handler_plain {A} (key message : string) (retry : M (option A))
    (search_data : option pyval) (w : World) :
  ∃ r w',
    handler randint key message retry false search_data w = (r, w')
    ∧ requests w' = requests w
    ∧ backoff_untouched w w'
    ∧ store_untouched w w'
    ∧ match search_data with
      | None => r = Raised UnboundLocalError
      | Some data =>
          match contains key data with
          | inl e => r = Raised e
          | inr false =>
              r = Ok None
              ∧ stdout w' = (stdout w ++ [OutValue data; OutText message])%list
          | inr true => r = Exited 1
          end
      end.
Proof.
  unfold handler. destruct search_data as [data|]; [|by eexists _, _].
  unfold mbind, M_bind, lift.
  destruct (contains key data) as [e|[]]; cbn; eexists _, _; split; try reflexivity;
    cbn; rewrite <- ?app_assoc; by repeat split.
Qed.

(** The two levels of a query, unfolded. *)
Lemma get_subcategories_eq (license : string) (eb : bool) (w : World) :
  get_subcategories remote randint license eb w =
    let search_data := remote (length (requests w)) (get_subcat_request_url license) in
    let w1 := (requests_get_json remote (get_subcat_request_url license) w).2 in
    match search_data ≫= (λ data, succeeded (cat_list_of data)) with
    | Some cat_list => (Ok (Some cat_list), w1)
    | None =>
        handler randint "query" "This query will not be processed due to empty subcats."
          (get_subcategories remote randint license false) eb search_data w1
    end.
Proof.
  unfold get_subcategories at 1. unfold get_subcategories_with at 1.
  unfold mbind at 1. unfold M_bind. cbn [requests_get_json fst snd].
  destruct (remote _ _ ≫= _); [done|].
  destruct eb; [|done]. unfold handler. done.
Qed.

Lemma get_license_contents_eq (license : string) (eb : bool) (w : World) :
  get_license_contents remote randint license eb w =
    let search_data := remote (length (requests w)) (get_content_request_url license) in
    let w1 := (requests_get_json remote (get_content_request_url license) w).2 in
    match search_data ≫= (λ data, succeeded (counts_of data)) with
    | Some search_data_dict => (Ok (Some search_data_dict), w1)
    | None =>
        handler randint "queries" "This query will not be processed due to empty result."
          (get_license_contents remote randint license false) eb search_data w1
    end.
Proof.
  unfold get_license_contents at 1. unfold get_license_contents_with at 1.
  unfold mbind at 1. unfold M_bind. cbn [requests_get_json fst snd].
  destruct (remote _ _ ≫= _); [done|].
  destruct eb; [|done]. unfold handler. done.
Qed.

(** A query called without [eb] sends one request and leaves the backoff
    controller, the cache and the report alone. *)
Lemma get_subcategories_plain (license : string) (w : World) :
  ∃ r w',
    get_subcategories remote randint license false w = (r, w')
    ∧ requests w' = (requests w ++ [get_subcat_request_url license])%list
    ∧ backoff_untouched w w'
    ∧ store_untouched w w'
    ∧ r ≠ OutOfFuel.
Proof.
  rewrite get_subcategories_eq. cbn zeta.
  destruct (remote _ _ ≫= _) as [names|].
  - eexists _, _. split; [reflexivity|]. by repeat split.
  - match goal with |- context [handler randint ?k ?m ?rt false ?sd ?w1] =>
      destruct (handler_plain k m rt sd w1) as (r & w' & -> & Hreq & Hb & Hs & Hr) end.
    exists r, w'. cbn in *. split; [done|]. split; [done|]. split; [done|]. split; [done|].
    destruct (remote _ _) as [data|]; [|by subst].
    destruct (contains _ _) as [e|[]]; by destruct_and?; subst.
Qed.

Lemma get_license_contents_plain (license : string) (w : World) :
  ∃ r w',
    get_license_contents remote randint license false w = (r, w')
    ∧ requests w' = (requests w ++ [get_content_request_url license])%list
    ∧ backoff_untouched w w'
    ∧ store_untouched w w'
    ∧ r ≠ OutOfFuel.
Proof.
  rewrite get_license_contents_eq. cbn zeta.
  destruct (remote _ _ ≫= _) as [names|].
  - eexists _, _. split; [reflexivity|]. by repeat split.
  - match goal with |- context [handler randint ?k ?m ?rt false ?sd ?w1] =>
      destruct (handler_plain k m rt sd w1) as (r & w' & -> & Hreq & Hb & Hs & Hr) end.
    exists r, w'. cbn in *. split; [done|]. split; [done|]. split; [done|]. split; [done|].
    destruct (remote _ _) as [data|]; [|by subst].
    destruct (contains _ _) as [e|[]]; by destruct_and?; subst.
Qed.

End QueryFacts.

(** ** Relations kept by the traversal *)

#[global] Instance backoff_untouched_preorder : PreOrder backoff_untouched.
Proof.
  split.
  - by intros w.
  - intros w1 w2 w3 (H1 & H2 & H3) (H4 & H5 & H6). unfold backoff_untouched. by rewrite H4, H5, H6.
Qed.

#[global] Instance store_untouched_preorder : PreOrder store_untouched.
Proof.
  split.
  - by intros w.
  - intros w1 w2 w3 (H1 & H2) (H3 & H4). unfold store_untouched. by rewrite H3, H4.
Qed.

#[global] Instance rows_fresh_preorder : PreOrder rows_fresh.
Proof.
  split.
  - intros w. exists []. rewrite app_nil_r. split; [done|]. split; [constructor|].
    split; [constructor|]. split; [|done]. by intros c ?%elem_of_nil.
  - intros w1 w2 w3 (rows1 & Hf1 & Hr1 & Hn1 & Hc1 & Hs1) (rows2 & Hf2 & Hr2 & Hn2 & Hc2 & Hs2).
    exists (rows1 ++ rows2). split; [by rewrite Hf2, Hf1, app_assoc|].
    split; [by apply Forall_app|]. rewrite fmap_app. split; [|split].
    + apply NoDup_app. split; [done|]. split; [|done].
      intros c Hin1 Hin2. apply Hc1 in Hin1 as [_ Hin1]. apply Hc2 in Hin2 as [Hin2 _]. done.
    + intros c [Hin|Hin]%elem_of_app.
      * apply Hc1 in Hin as [? ?]. split; [done|]. by apply Hs2.
      * apply Hc2 in Hin as [Hnot ?]. split; [|done]. intros Hw1. by apply Hnot, Hs1.
    + by etrans.
Qed.

Lemma store_untouched_rows_fresh (w w' : World) : store_untouched w w' → rows_fresh w w'.
Proof.
  intros [Hc Hf]. exists []. rewrite app_nil_r, Hc. split; [done|]. split; [constructor|].
  split; [constructor|]. split; [|done]. by intros c ?%elem_of_nil.
Qed.

Section Frames.

Context {R : relation World} `{!PreOrder R}.

Lemma stable_ret {A} (x : A) : stable R (mret x : M A).
Proof. intros w. reflexivity. Qed.

Lemma stable_bind {A B} (m : M A) (f : A → M B) :
  stable R m → (∀ a, stable R (f a)) → stable R (m ≫= f).
Proof.
  intros Hm Hf w. unfold mbind, M_bind. specialize (Hm w).
  destruct (m w) as [[a| | |] w1]; [|done..].
  cbn in Hm. etrans; [exact Hm|]. apply Hf.
Qed.

Lemma stable_for_each {A} (l : list A) (body : A → M unit) :
  (∀ x, stable R (body x)) → stable R (for_each l body).
Proof.
  intros Hbody. induction l as [|x l IH]; [apply stable_ret|].
  cbn [for_each]. apply stable_bind; [apply Hbody|]. by intros _.
Qed.

End Frames.

(** ** The traversal, over any endpoint *)

Section TraversalFacts.

Variable remote : nat → string → option pyval.
Variable randint : nat → Z.

Lemma cache_contains_run (k : string) (w : World) :
  cache_contains k w = (Ok (bool_decide (k ∈ dom (LICENSE_CACHE w))), w).
Proof.
  unfold cache_contains. do 2 f_equal. apply bool_decide_ext. by rewrite elem_of_dom.
Qed.

(** [record_license_data] sends one request; it either appends the row of
    the alias or ends the run with the report as it was. *)
Lemma record_license_data_run (license_type license_alias : string) (w : World) :
  ∃ r w',
    record_license_data remote randint license_type license_alias w = (r, w')
    ∧ requests w' = (requests w ++ [get_content_request_url license_type])%list
    ∧ backoff_untouched w w'
    ∧ LICENSE_CACHE w' = LICENSE_CACHE w
    ∧ ((r = Ok () ∧ ∃ f p, data_file w' = (data_file w ++ [Row license_alias f p])%list)
       ∨ (r ≠ Ok () ∧ r ≠ OutOfFuel ∧ data_file w' = data_file w)).
Proof.
  unfold record_license_data.
  destruct (get_license_contents_plain remote randint license_type w)
    as (r & w1 & Hrun & Hreq & Hb & [Hc Hf] & Hfuel).
  destruct r as [[d|]| | |].
  - rewrite (bind_ok _ _ _ _ _ Hrun). eexists _, _. split; [reflexivity|]. cbn.
    split; [done|]. split; [done|]. split; [done|]. left. split; [done|].
    eexists _, _. by rewrite Hf.
  - rewrite (bind_ok _ _ _ _ _ Hrun). eexists _, _. split; [reflexivity|].
    split; [done|]. split; [done|]. split; [done|]. by right.
  - rewrite (bind_raised _ _ _ _ _ Hrun). eexists _, _. split; [reflexivity|].
    split; [done|]. split; [done|]. split; [done|]. by right.
  - rewrite (bind_exited _ _ _ _ _ Hrun). eexists _, _. split; [reflexivity|].
    split; [done|]. split; [done|]. split; [done|]. by right.
  - done.
Qed.

(** On a cached category the traversal is the subcategory listing and
    nothing else. *)
Lemma recur_cached (fuel : nat) (alias : string) (w : World) :
  cur_cat_of alias ∈ dom (LICENSE_CACHE w) →
  ∃ r w',
    get_subcategories remote randint (cur_cat_of alias) false w = (r, w')
    ∧ recur_record_all_licenses remote randint (S fuel) alias w =
        (match r with
         | Ok _ => Ok ()
         | Raised e => Raised e
         | Exited c => Exited c
         | OutOfFuel => OutOfFuel
         end, w').
Proof.
  intros Hin. cbn [recur_record_all_licenses].
  destruct (get_subcategories_plain remote randint (cur_cat_of alias) w)
    as (r & w1 & Hrun & _ & _ & [Hc _] & _).
  exists r, w1. split; [done|].
  destruct r as [subs| | |].
  - rewrite (bind_ok _ _ _ _ _ Hrun).
    rewrite (bind_ok _ _ _ _ _ (cache_contains_run _ w1)).
    rewrite Hc, bool_decide_eq_true_2 by done. done.
  - by rewrite (bind_raised _ _ _ _ _ Hrun).
  - by rewrite (bind_exited _ _ _ _ _ Hrun).
  - by rewrite (bind_out_of_fuel _ _ _ _ Hrun).
Qed.

(** The traversal never uses the backoff controller. *)
Lemma recur_backoff_untouched (fuel : nat) : ∀ alias,
  stable backoff_untouched (recur_record_all_licenses remote randint fuel alias).
Proof.
  induction fuel as [|fuel IH]; intros alias; [by intros w|].
  cbn [recur_record_all_licenses]. apply stable_bind.
  { intros w. by destruct (get_subcategories_plain remote randint (cur_cat_of alias) w)
      as (r & w1 & -> & _ & Hb & _). }
  intros subs. apply stable_bind; [by intros w|]. intros cached.
  destruct cached; cbn; [by intros w|].
  apply stable_bind.
  { intros w. by destruct (record_license_data_run (cur_cat_of alias) alias w)
      as (r & w1 & -> & _ & Hb & _). }
  intros _. apply stable_bind; [by intros w|]. intros _.
  apply stable_bind; [by intros w|]. intros _.
  destruct subs as [cats_list|]; [|by intros w].
  apply stable_for_each. intros cats. apply IH.
Qed.

(** The rows a traversal appends are for pairwise distinct categories that
    were not in the cache, whatever the endpoint answers and however the
    traversal ends. *)
Lemma recur_rows_fresh (fuel : nat) : ∀ alias,
  stable rows_fresh (recur_record_all_licenses remote randint fuel alias).
Proof.
  induction fuel as [|fuel IH]; intros alias w; [reflexivity|].
  cbn [recur_record_all_licenses].
  destruct (get_subcategories_plain remote randint (cur_cat_of alias) w)
    as (r & w1 & Hrun & _ & _ & [Hc1 Hf1] & _).
  assert (rows_fresh w w1) as Hw1 by (by apply store_untouched_rows_fresh).
  destruct r as [subs| | |];
    [|by rewrite (bind_raised _ _ _ _ _ Hrun)|by rewrite (bind_exited _ _ _ _ _ Hrun)
     |by rewrite (bind_out_of_fuel _ _ _ _ Hrun)].
  rewrite (bind_ok _ _ _ _ _ Hrun).
  rewrite (bind_ok _ _ _ _ _ (cache_contains_run _ w1)).
  destruct (decide (cur_cat_of alias ∈ dom (LICENSE_CACHE w1))) as [Hin|Hnot].
  { by rewrite bool_decide_eq_true_2. }
  rewrite bool_decide_eq_false_2 by done. cbn [negb].
  destruct (record_license_data_run (cur_cat_of alias) alias w1)
    as (r2 & w2 & Hrec & _ & _ & Hc2 & [[-> (f & p & Hf2)]|(Hr2 & Hfuel2 & Hf2)]).
  - rewrite (bind_ok _ _ _ _ _ Hrec).
    unfold mbind at 1. unfold M_bind. cbn [cache_set].
    unfold mbind at 1. unfold M_bind. cbn [print_out].
    match goal with |- rows_fresh w (?m ?w4).2 =>
      assert (rows_fresh w w4) as Hw4; [|etrans; [exact Hw4|]] end.
    { exists [Row alias f p]. cbn. rewrite Hf2, Hf1, Hc2, Hc1, dom_insert_L.
      split; [done|]. split; [by repeat constructor|].
      split; [apply NoDup_singleton|]. split.
      - intros c ->%list_elem_of_singleton. rewrite <- Hc1. split; [done|]. set_solver.
      - set_solver. }
    destruct subs as [cats_list|]; [|reflexivity].
    apply stable_for_each. intros cats. apply IH.
  - assert (rows_fresh w w2) as Hw2.
    { apply store_untouched_rows_fresh. split; congruence. }
    destruct r2 as [[]| | |]; [done| | |done].
    + by rewrite (bind_raised _ _ _ _ _ Hrec).
    + by rewrite (bind_exited _ _ _ _ _ Hrec).
Qed.

End TraversalFacts.

(** ** The last segment of an alias *)

Section AliasFacts.

Lemma prefix_char (c a : ascii) (s : string) :
  String.prefix (String c EmptyString) (String a s) = Ascii.eqb a c.
Proof.
  rewrite prefix_cons, prefix_nil. destruct (ascii_dec c a) as [<-|Hne].
  - symmetry. apply Ascii.eqb_refl.
  - symmetry. apply Ascii.eqb_neq. congruence.
Qed.

Lemma split_plain (s : string) :
  PyStr.contains "/" s = false → PyStr.split "/" s = [s].
Proof.
  induction s as [|a s IH]; [done|].
  cbn [PyStr.contains PyStr.split]. rewrite prefix_char.
  intros [Ha Hs]%orb_false_iff. rewrite Ha, IH; done.
Qed.

Lemma split_app (p s : string) :
  ∃ hs, hs ≠ [] ∧ PyStr.split "/" (p +:+ String "/" s) = (hs ++ PyStr.split "/" s)%list.
Proof.
  induction p as [|a p (hs & Hne & IH)].
  - exists [EmptyString]. split; [done|]. reflexivity.
  - rewrite append_cons. cbn [PyStr.split]. rewrite IH.
    destruct (Ascii.eqb a "/").
    + exists (EmptyString :: hs). by split.
    + destruct hs as [|h hs]; [done|]. exists (String a h :: hs). by split.
Qed.

Lemma cur_cat_of_plain (c : string) :
  PyStr.contains "/" c = false → cur_cat_of c = c.
Proof. intros Hc. unfold cur_cat_of. by rewrite split_plain. Qed.

Lemma cur_cat_of_child (alias c : string) :
  PyStr.contains "/" c = false → cur_cat_of (alias +:+ "/" +:+ c) = c.
Proof.
  intros Hc. unfold cur_cat_of, PyStr.last_item.
  change ("/" +:+ c) with (String "/" c).
  destruct (split_app alias c) as (hs & _ & ->).
  rewrite last_app, split_plain by done. done.
Qed.

End AliasFacts.

(** ** The traversal over a finite category graph *)

Section GraphFacts.

Variable remote : nat → string → option pyval.
Variable children : string → list string.
Variable metrics : string → Z * Z.
Variable U : gset string.

Hypothesis graph : finite_category_graph children metrics remote U.

Lemma children_in_U (c c' : string) : c ∈ U → c' ∈ children c → c' ∈ U.
Proof. destruct graph as (_ & _ & Hclosed). apply Hclosed. Qed.

(** *** The reference traversal ends and does not depend on spare fuel *)

Lemma visit_each_terminates (fuel : nat) (alias : string) (cs : list string) :
  (∀ c a visited, c ∈ U → size (U ∖ visited) < fuel →
     ∃ rows visited', visit children metrics fuel c a visited = Some (rows, visited')
                      ∧ visited ⊆ visited') →
  ∀ visited, (∀ c, c ∈ cs → c ∈ U) → size (U ∖ visited) < fuel →
    ∃ rows visited',
      visit_each (visit children metrics fuel) alias cs visited = Some (rows, visited')
      ∧ visited ⊆ visited'.
Proof.
  intros IH. induction cs as [|c cs IHcs]; intros visited Hcs Hsize.
  - by exists [], visited.
  - cbn [visit_each].
    destruct (IH c (alias +:+ "/" +:+ c) visited) as (r1 & v1 & -> & Hsub1);
      [apply Hcs; by left|done|].
    destruct (IHcs v1) as (r2 & v2 & -> & Hsub2).
    + intros c' Hc'. apply Hcs. by right.
    + eapply Nat.le_lt_trans; [|exact Hsize]. apply subseteq_size. set_solver.
    + eexists _, _. split; [done|]. set_solver.
Qed.

Lemma visit_terminates (fuel : nat) : ∀ c alias visited,
  c ∈ U → size (U ∖ visited) < fuel →
  ∃ rows visited',
    visit children metrics fuel c alias visited = Some (rows, visited')
    ∧ visited ⊆ visited'.
Proof.
  induction fuel as [|fuel IH]; intros c alias visited Hc Hsize; [lia|].
  cbn [visit]. destruct (decide (c ∈ visited)) as [Hin|Hnot].
  - by exists [], visited.
  - destruct (visit_each_terminates fuel alias (children c) IH ({[c]} ∪ visited))
      as (rows & visited' & -> & Hsub).
    + intros c' Hc'. by apply (children_in_U c).
    + assert (size (U ∖ ({[c]} ∪ visited)) < size (U ∖ visited)); [|lia].
      apply subset_size. set_solver.
    + eexists _, _. split; [done|]. set_solver.
Qed.

Lemma visit_each_mono
    (v1 v2 : string → string → gset string → option (list Line * gset string))
    (alias : string) (cs : list string) :
  (∀ c a visited r, v1 c a visited = Some r → v2 c a visited = Some r) →
  ∀ visited r, visit_each v1 alias cs visited = Some r →
               visit_each v2 alias cs visited = Some r.
Proof.
  intros Hv. induction cs as [|c cs IH]; intros visited r; [done|].
  cbn [visit_each].
  destruct (v1 c _ visited) as [[r1 vis1]|] eqn:H1; [|done].
  rewrite (Hv _ _ _ _ H1).
  destruct (visit_each v1 alias cs vis1) as [[r2 vis2]|] eqn:H2; [|done].
  by rewrite (IH _ _ H2).
Qed.

Lemma visit_S (fuel : nat) (c alias : string) (visited : gset string) :
  visit children metrics (S fuel) c alias visited =
    if decide (c ∈ visited) then Some ([], visited)
    else
      match visit_each (visit children metrics fuel) alias (children c)
                       ({[c]} ∪ visited) with
      | Some (rows, visited') =>
          Some (Row alias (metrics c).1 (metrics c).2 :: rows, visited')
      | None => None
      end.
Proof. reflexivity. Qed.

Lemma visit_fuel_S (fuel : nat) : ∀ c alias visited r,
  visit children metrics fuel c alias visited = Some r →
  visit children metrics (S fuel) c alias visited = Some r.
Proof.
  induction fuel as [|fuel IH]; intros c alias visited r; [done|].
  intros Hv. rewrite visit_S in Hv. rewrite visit_S.
  destruct (decide (c ∈ visited)); [done|].
  destruct (visit_each (visit children metrics fuel) alias (children c) _)
    as [[rows vis']|] eqn:Heach; [|done].
  by rewrite (visit_each_mono _ _ _ _ IH _ _ Heach).
Qed.

Lemma visit_fuel_le (fuel fuel' : nat) (c alias : string) (visited : gset string)
    (r : list Line * gset string) :
  fuel ≤ fuel' →
  visit children metrics fuel c alias visited = Some r →
  visit children metrics fuel' c alias visited = Some r.
Proof. induction 1; [done|]. intros Hv. by apply visit_fuel_S, IHle. Qed.

(** *** The reference traversal covers what can be reached *)

Hypothesis no_slash : slash_free U.

Lemma visit_each_explored (fuel : nat) (alias : string) (cs : list string) :
  (∀ a visited rows visited',
     cur_cat_of a ∈ U →
     visit children metrics fuel (cur_cat_of a) a visited = Some (rows, visited') →
     cur_cat_of a ∈ visited' ∧ explored children visited rows visited') →
  ∀ visited rows visited',
    (∀ c, c ∈ cs → c ∈ U) →
    visit_each (visit children metrics fuel) alias cs visited = Some (rows, visited') →
    (∀ c, c ∈ cs → c ∈ visited') ∧ explored children visited rows visited'.
Proof.
  intros IH. induction cs as [|c cs IHcs]; intros visited rows visited' Hcs Hv.
  - injection Hv as <- <-. split; [by intros c ?%elem_of_nil|].
    split; [done|]. split; [done|]. intros x. cbn. rewrite elem_of_nil. tauto.
  - cbn [visit_each] in Hv.
    assert (c ∈ U) as Hc by (apply Hcs; by left).
    pose proof (cur_cat_of_child alias c (no_slash c Hc)) as Hcur.
    destruct (visit children metrics fuel c _ visited) as [[r1 v1]|] eqn:H1; [|done].
    destruct (visit_each _ alias cs v1) as [[r2 v2]|] eqn:H2; [|done].
    injection Hv as <- <-.
    destruct (IH (alias +:+ "/" +:+ c) visited r1 v1) as (Hin1 & Hs1 & Hk1 & Hr1);
      [by rewrite Hcur|by rewrite Hcur|]. rewrite Hcur in Hin1.
    destruct (IHcs v1 r2 v2) as (Hin2 & Hs2 & Hk2 & Hr2); [|done|].
    { intros c' Hc'. apply Hcs. by right. }
    split; [|split; [|split]].
    + intros c' [->|Hc']%elem_of_cons; [by apply Hs2|by apply Hin2].
    + by etrans.
    + intros x y Hx Hnx Hy. destruct (decide (x ∈ v1)) as [Hx1|Hx1].
      * apply Hs2. by apply (Hk1 x y).
      * by apply (Hk2 x y).
    + intros x. rewrite fmap_app, elem_of_app, Hr1, Hr2. split.
      * intros [[Hx1 Hnx]|[Hx2 Hnx1]]; [split; [by apply Hs2|done]|].
        split; [done|]. intros Hx. by apply Hnx1, Hs1.
      * intros [Hx2 Hnx]. destruct (decide (x ∈ v1)); [by left|by right].
Qed.

Lemma visit_explored (fuel : nat) : ∀ alias visited rows visited',
  cur_cat_of alias ∈ U →
  visit children metrics fuel (cur_cat_of alias) alias visited = Some (rows, visited') →
  cur_cat_of alias ∈ visited' ∧ explored children visited rows visited'.
Proof.
  induction fuel as [|fuel IH]; intros alias visited rows visited' Hc Hv; [done|].
  rewrite visit_S in Hv. destruct (decide (cur_cat_of alias ∈ visited)) as [Hin|Hnot].
  - injection Hv as <- <-. split; [done|]. split; [done|]. split; [done|].
    intros x. cbn. rewrite elem_of_nil. tauto.
  - destruct (visit_each _ alias _ _) as [[rows' vis']|] eqn:Heach; [|done].
    injection Hv as <- <-.
    destruct (visit_each_explored fuel alias _ IH _ _ _
                (λ c', children_in_U (cur_cat_of alias) c' Hc) Heach)
      as (Hkids & Hs & Hk & Hr).
    assert (cur_cat_of alias ∈ vis') as Hin by (apply Hs; set_solver).
    split; [done|]. split; [|split].
    + etrans; [|exact Hs]. set_solver.
    + intros x y Hx Hnx Hy. destruct (decide (x = cur_cat_of alias)) as [->|Hne].
      * by apply Hkids.
      * apply (Hk x y); [done| |done]. set_solver.
    + intros x. cbn [fmap list_fmap row_category]. rewrite elem_of_cons, Hr. split.
      * intros [->|[Hx Hnx]]; [done|]. split; [done|]. set_solver.
      * intros [Hx Hnx]. destruct (decide (x = cur_cat_of alias)); [by left|].
        right. split; [done|]. set_solver.
Qed.

(** From an empty visited set, every category that can be reached from
    the root has a row. *)
Lemma visit_covers_reachable (fuel : nat) (root : string)
    (rows : list Line) (visited' : gset string) :
  root ∈ U →
  visit children metrics fuel root root ∅ = Some (rows, visited') →
  ∀ c, reachable children root c → c ∈ (row_category <$> rows).
Proof.
  intros Hroot Hv. pose proof (cur_cat_of_plain root (no_slash root Hroot)) as Hcur.
  destruct (visit_explored fuel root ∅ rows visited') as (Hin & _ & Hk & Hr);
    [by rewrite Hcur|by rewrite Hcur|]. rewrite Hcur in Hin.
  assert (∀ c, reachable children root c → c ∈ visited') as Hreach.
  { induction 1 as [|c' c'' _ IH Hkid]; [done|]. apply (Hk c' c''); [done| |done]. set_solver. }
  intros c Hc. apply Hr. split; [by apply Hreach|]. set_solver.
Qed.

(** *** The script follows the reference traversal *)

Variable randint : nat → Z.


Lemma get_subcategories_graph (c : string) (w : World) :
  c ∈ U →
  get_subcategories remote randint c false w =
    (Ok (Some (children c)), (requests_get_json remote (get_subcat_request_url c) w).2).
Proof.
  intros Hc. destruct graph as (Hsub & _).
  destruct (Hsub (length (requests w)) c Hc) as (data & Hr & Hp).
  by apply (get_subcategories_parsed remote randint c false w data).
Qed.

Lemma record_license_data_graph (c alias : string) (w : World) :
  c ∈ U →
  record_license_data remote randint c alias w =
    (Ok (),
     (file_append (Row alias (metrics c).1 (metrics c).2)
        (requests_get_json remote (get_content_request_url c) w).2).2).
Proof.
  intros Hc. destruct graph as (_ & Hcnt & _).
  destruct (Hcnt (length (requests w)) c Hc) as (data & Hr & Hp).
  unfold record_license_data.
  by rewrite (bind_ok _ _ _ _ _ (get_license_contents_parsed remote randint c false w data _ Hr Hp)).
Qed.

Lemma for_each_simulates (fuel : nat) (alias : string) (cs : list string) :
  (∀ a w rows visited',
     cur_cat_of a ∈ U →
     visit children metrics fuel (cur_cat_of a) a (dom (LICENSE_CACHE w)) = Some (rows, visited') →
     ∃ w', recur_record_all_licenses remote randint fuel a w = (Ok (), w')
           ∧ data_file w' = (data_file w ++ rows)%list
           ∧ dom (LICENSE_CACHE w') = visited') →
  ∀ w rows visited',
    (∀ c, c ∈ cs → c ∈ U) →
    visit_each (visit children metrics fuel) alias cs (dom (LICENSE_CACHE w)) = Some (rows, visited') →
    ∃ w', for_each cs (λ cats, recur_record_all_licenses remote randint fuel
                                 (alias +:+ "/" +:+ cats)) w = (Ok (), w')
          ∧ data_file w' = (data_file w ++ rows)%list
          ∧ dom (LICENSE_CACHE w') = visited'.
Proof.
  intros IH. induction cs as [|c cs IHcs]; intros w rows visited' Hcs Hv.
  - injection Hv as <- <-. exists w. by rewrite app_nil_r.
  - cbn [visit_each] in Hv. cbn [for_each].
    assert (c ∈ U) as Hc by (apply Hcs; by left).
    pose proof (cur_cat_of_child alias c (no_slash c Hc)) as Hcur.
    destruct (visit children metrics fuel c _ _) as [[r1 v1]|] eqn:H1; [|done].
    destruct (IH (alias +:+ "/" +:+ c) w r1 v1) as (w1 & Hrun1 & Hf1 & Hd1);
      [by rewrite Hcur|by rewrite Hcur|].
    rewrite (bind_ok _ _ _ _ _ Hrun1). rewrite <- Hd1 in Hv.
    destruct (visit_each _ alias cs _) as [[r2 v2]|] eqn:H2; [|done].
    injection Hv as <- <-.
    destruct (IHcs w1 r2 v2) as (w2 & Hrun2 & Hf2 & Hd2); [|done|].
    { intros c' Hc'. apply Hcs. by right. }
    exists w2. split; [done|]. split; [|done]. by rewrite Hf2, Hf1, app_assoc.
Qed.

Lemma recur_simulates (fuel : nat) : ∀ alias w rows visited',
  cur_cat_of alias ∈ U →
  visit children metrics fuel (cur_cat_of alias) alias (dom (LICENSE_CACHE w))
    = Some (rows, visited') →
  ∃ w', recur_record_all_licenses remote randint fuel alias w = (Ok (), w')
        ∧ data_file w' = (data_file w ++ rows)%list
        ∧ dom (LICENSE_CACHE w') = visited'.
Proof.
  induction fuel as [|fuel IH]; intros alias w rows visited' Hc Hv; [done|].
  cbn [visit] in Hv. cbn [recur_record_all_licenses].
  rewrite (bind_ok _ _ _ _ _ (get_subcategories_graph _ w Hc)).
  rewrite (bind_ok _ _ _ _ _ (cache_contains_run _ _)). cbn [requests_get_json snd LICENSE_CACHE].
  destruct (decide (cur_cat_of alias ∈ dom (LICENSE_CACHE w))) as [Hin|Hnot].
  - rewrite bool_decide_eq_true_2 by done. injection Hv as <- <-.
    eexists. split; [reflexivity|]. by rewrite app_nil_r.
  - rewrite bool_decide_eq_false_2 by done. cbn [negb].
    rewrite (bind_ok _ _ _ _ _ (record_license_data_graph _ alias _ Hc)).
    unfold mbind at 1. unfold M_bind. cbn [cache_set].
    unfold mbind at 1. unfold M_bind. cbn [print_out].
    destruct (visit_each _ alias _ _) as [[rows' vis']|] eqn:Heach; [|done].
    injection Hv as <- <-.
    match goal with |- ∃ w', for_each _ _ ?w5 = _ ∧ _ =>
      destruct (for_each_simulates fuel alias (children (cur_cat_of alias)) IH w5 rows' vis')
        as (w' & Hrun & Hf & Hd) end.
    + intros c' Hc'. by apply (children_in_U (cur_cat_of alias)).
    + cbn. by rewrite dom_insert_L.
    + exists w'. split; [done|]. split; [|done]. rewrite Hf. cbn. by rewrite <- app_assoc.
Qed.

End GraphFacts.

(** ** The example graphs *)

Section ExampleFacts.

Lemma graph_AB :
  finite_category_graph Examples.children_AB Examples.metrics_AB Examples.remote_AB
    {[ "A"; "B" ]}.
Proof.
  split; [|split].
  - intros n c [->%elem_of_singleton| ->%elem_of_singleton]%elem_of_union;
      eexists; (split; [by vm_compute|]); by vm_compute.
  - intros n c [->%elem_of_singleton| ->%elem_of_singleton]%elem_of_union;
      eexists; (split; [by vm_compute|]); by vm_compute.
  - intros c c' [->%elem_of_singleton| ->%elem_of_singleton]%elem_of_union; cbn.
    + intros ->%list_elem_of_singleton. set_solver.
    + by intros ?%elem_of_nil.
Qed.

Lemma slash_free_AB : slash_free {[ "A"; "B" ]}.
Proof.
  intros c [->%elem_of_singleton| ->%elem_of_singleton]%elem_of_union; by vm_compute.
Qed.

Lemma graph_cycle :
  finite_category_graph Examples.children_cycle Examples.metrics_AB Examples.remote_cycle
    {[ "A"; "B" ]}.
Proof.
  split; [|split].
  - intros n c [->%elem_of_singleton| ->%elem_of_singleton]%elem_of_union;
      eexists; (split; [by vm_compute|]); by vm_compute.
  - intros n c [->%elem_of_singleton| ->%elem_of_singleton]%elem_of_union;
      eexists; (split; [by vm_compute|]); by vm_compute.
  - intros c c' [->%elem_of_singleton| ->%elem_of_singleton]%elem_of_union; cbn;
      intros ->%list_elem_of_singleton; set_solver.
Qed.

Lemma size_AB : size ({[ "A"; "B" ]} : gset string) = 2.
Proof. by vm_compute. Qed.

Ltac in_three :=
  intros [[->%elem_of_singleton| ->%elem_of_singleton]%elem_of_union
         | ->%elem_of_singleton]%elem_of_union.

Lemma graph_slash :
  finite_category_graph Examples.children_slash Examples.metrics_slash Examples.remote_slash
    {[ "A"; "X/Y"; "Y" ]}.
Proof.
  split; [|split].
  - intros n c. in_three; eexists; (split; [by vm_compute|]); by vm_compute.
  - intros n c. in_three; eexists; (split; [by vm_compute|]); by vm_compute.
  - intros c c'. in_three; cbn.
    + intros ->%list_elem_of_singleton. set_solver.
    + by intros ?%elem_of_nil.
    + by intros ?%elem_of_nil.
Qed.

Lemma graph_slash_cycle :
  finite_category_graph Examples.children_slash_cycle Examples.metrics_slash_cycle
    Examples.remote_slash_cycle {[ "A"; "X/B" ]}.
Proof.
  split; [|split].
  - intros n c [->%elem_of_singleton| ->%elem_of_singleton]%elem_of_union;
      eexists; (split; [by vm_compute|]); by vm_compute.
  - intros n c [->%elem_of_singleton| ->%elem_of_singleton]%elem_of_union;
      eexists; (split; [by vm_compute|]); by vm_compute.
  - intros c c' [->%elem_of_singleton| ->%elem_of_singleton]%elem_of_union; cbn;
      intros ->%list_elem_of_singleton; set_solver.
Qed.

Lemma graph_chain :
  finite_category_graph Examples.children_chain Examples.metrics_chain Examples.remote_chain
    {[ "A"; "B"; "C" ]}.
Proof.
  split; [|split].
  - intros n c. in_three; eexists; (split; [by vm_compute|]); by vm_compute.
  - intros n c. in_three; eexists; (split; [by vm_compute|]); by vm_compute.
  - intros c c'. in_three; cbn.
    + intros ->%list_elem_of_singleton. set_solver.
    + intros ->%list_elem_of_singleton. set_solver.
    + by intros ?%elem_of_nil.
Qed.

Lemma slash_free_chain : slash_free {[ "A"; "B"; "C" ]}.
Proof. intros c. in_three; by vm_compute. Qed.

End ExampleFacts.

(** ** The traversal: order, termination, one row per category *)







(** ** Failures of a query *)

Section FailureFacts.

Variable remote : nat → string → option pyval.
Variable randint : nat → Z.

(** The [except] clause with backoff: one wait, the retry, and [None]
    whatever the retry returned. *)
Lemma handler_backoff {A} (key message : string) (retry : M (option A))
    (search_data : option pyval) (w : World) :
  handler randint key message retry true search_data w =
    (match (retry (expo_backoff randint w).2).1 with
     | Ok _ => Ok None
     | Raised e => Raised e
     | Exited c => Exited c
     | OutOfFuel => OutOfFuel
     end, (retry (expo_backoff randint w).2).2).
Proof.
  unfold handler. unfold mbind at 1. unfold M_bind. rewrite expo_backoff_run. cbn [snd].
  unfold mbind, M_bind. by destruct (retry _) as [[x| | |] w2].
Qed.

Lemma get_subcategories_retry (license : string) (w : World) :
  remote (length (requests w)) (get_subcat_request_url license)
    ≫= (λ data, succeeded (cat_list_of data)) = None →
  ∃ r w',
    get_subcategories remote randint license true w = (r, w')
    ∧ (∀ v, r = Ok v → v = None)
    ∧ r ≠ OutOfFuel
    ∧ sleeps w' = (sleeps w ++ [sleep_time (randint (draws w)) (CALLBACK_EXPO w)])%list
    ∧ requests w' = (requests w ++ [get_subcat_request_url license;
                                    get_subcat_request_url license])%list
    ∧ store_untouched w w'
    ∧ ∀ x w2,
        get_subcategories remote randint license false
          (expo_backoff randint
             (requests_get_json remote (get_subcat_request_url license) w).2).2 = (Ok x, w2) →
        r = Ok None ∧ w' = w2.
Proof.
  intros Hfail. rewrite get_subcategories_eq. cbn zeta. rewrite Hfail, handler_backoff.
  rewrite expo_backoff_run. cbn [snd requests_get_json].
  match goal with |- context [get_subcategories remote randint license false ?w2] =>
    destruct (get_subcategories_plain remote randint license w2)
      as (r & w3 & Hrun & Hreq & (_ & Hsl & _) & Hst & Hfuel) end.
  rewrite Hrun. cbn [fst snd]. cbn in Hreq, Hsl, Hst. eexists _, _. split; [reflexivity|].
  split; [by destruct r; intros v [= <-]|]. split; [by destruct r|].
  split; [done|]. split; [by rewrite Hreq, <- app_assoc|]. split; [done|].
  intros x w2 [= -> ->]. done.
Qed.

Lemma get_license_contents_retry (license : string) (w : World) :
  remote (length (requests w)) (get_content_request_url license)
    ≫= (λ data, succeeded (counts_of data)) = None →
  ∃ r w',
    get_license_contents remote randint license true w = (r, w')
    ∧ (∀ v, r = Ok v → v = None)
    ∧ r ≠ OutOfFuel
    ∧ sleeps w' = (sleeps w ++ [sleep_time (randint (draws w)) (CALLBACK_EXPO w)])%list
    ∧ requests w' = (requests w ++ [get_content_request_url license;
                                    get_content_request_url license])%list
    ∧ store_untouched w w'
    ∧ ∀ x w2,
        get_license_contents remote randint license false
          (expo_backoff randint
             (requests_get_json remote (get_content_request_url license) w).2).2 = (Ok x, w2) →
        r = Ok None ∧ w' = w2.
Proof.
  intros Hfail. rewrite get_license_contents_eq. cbn zeta. rewrite Hfail, handler_backoff.
  rewrite expo_backoff_run. cbn [snd requests_get_json].
  match goal with |- context [get_license_contents remote randint license false ?w2] =>
    destruct (get_license_contents_plain remote randint license w2)
      as (r & w3 & Hrun & Hreq & (_ & Hsl & _) & Hst & Hfuel) end.
  rewrite Hrun. cbn [fst snd]. cbn in Hreq, Hsl, Hst. eexists _, _. split; [reflexivity|].
  split; [by destruct r; intros v [= <-]|]. split; [by destruct r|].
  split; [done|]. split; [by rewrite Hreq, <- app_assoc|]. split; [done|].
  intros x w2 [= -> ->]. done.
Qed.

(** Without backoff a failed query ends in one of three ways. *)
Lemma get_subcategories_failed (license : string) (w : World) :
  remote (length (requests w)) (get_subcat_request_url license)
    ≫= (λ data, succeeded (cat_list_of data)) = None →
  ∃ r w',
    get_subcategories remote randint license false w = (r, w')
    ∧ (∀ v, r = Ok v → v = None)
    ∧ match remote (length (requests w)) (get_subcat_request_url license) with
      | None => r = Raised UnboundLocalError
      | Some data =>
          match contains "query" data with
          | inl e => r = Raised e
          | inr false => r = Ok None
          | inr true => r = Exited 1
          end
      end.
Proof.
  intros Hfail. rewrite get_subcategories_eq. cbn zeta. rewrite Hfail.
  match goal with |- context [handler randint ?k ?m ?rt false ?sd ?w1] =>
    destruct (handler_plain randint k m rt sd w1) as (r & w' & -> & _ & _ & _ & Hr) end.
  exists r, w'. split; [done|].
  destruct (remote _ _) as [data|]; [|by subst].
  destruct (contains _ _) as [e|[]]; destruct_and?; subst; split; try done; by intros v [= <-].
Qed.

Lemma get_license_contents_failed (license : string) (w : World) :
  remote (length (requests w)) (get_content_request_url license)
    ≫= (λ data, succeeded (counts_of data)) = None →
  ∃ r w',
    get_license_contents remote randint license false w = (r, w')
    ∧ (∀ v, r = Ok v → v = None)
    ∧ match remote (length (requests w)) (get_content_request_url license) with
      | None => r = Raised UnboundLocalError
      | Some data =>
          match contains "queries" data with
          | inl e => r = Raised e
          | inr false => r = Ok None
          | inr true => r = Exited 1
          end
      end.
Proof.
  intros Hfail. rewrite get_license_contents_eq. cbn zeta. rewrite Hfail.
  match goal with |- context [handler randint ?k ?m ?rt false ?sd ?w1] =>
    destruct (handler_plain randint k m rt sd w1) as (r & w' & -> & _ & _ & _ & Hr) end.
  exists r, w'. split; [done|].
  destruct (remote _ _) as [data|]; [|by subst].
  destruct (contains _ _) as [e|[]]; destruct_and?; subst; split; try done; by intros v [= <-].
Qed.

(** Subscripting [None] in [record_license_data]. *)
Lemma record_license_data_none (license_type license_alias : string) (w w' : World) :
  get_license_contents remote randint license_type false w = (Ok None, w') →
  record_license_data remote randint license_type license_alias w = (Raised TypeError, w').
Proof. intros Hrun. unfold record_license_data. by rewrite (bind_ok _ _ _ _ _ Hrun). Qed.

(** Iterating over [None] in [recur_record_all_licenses]. *)
Lemma recur_none (fuel : nat) (alias : string) (w w1 w2 : World) :
  get_subcategories remote randint (cur_cat_of alias) false w = (Ok None, w1) →
  cur_cat_of alias ∉ dom (LICENSE_CACHE w) →
  record_license_data remote randint (cur_cat_of alias) alias w1 = (Ok (), w2) →
  ∃ w3, recur_record_all_licenses remote randint (S fuel) alias w = (Raised TypeError, w3)
        ∧ data_file w3 = data_file w2.
Proof.
  intros Hsub Hnot Hrec. cbn [recur_record_all_licenses].
  destruct (get_subcategories_plain remote randint (cur_cat_of alias) w)
    as (r & w1' & Hrun & _ & _ & [Hc _] & _).
  rewrite Hsub in Hrun. injection Hrun as <- <-.
  rewrite (bind_ok _ _ _ _ _ Hsub).
  rewrite (bind_ok _ _ _ _ _ (cache_contains_run _ w1)).
  rewrite Hc, bool_decide_eq_false_2 by done. cbn [negb].
  rewrite (bind_ok _ _ _ _ _ Hrec). by eexists.
Qed.

End FailureFacts.

(** ** The traversal on a category that is already cached *)

(** C1, as the code has it.  On a category that is in the cache the
    traversal sends exactly one request, the subcategory listing of that
    category, which it asks for before it looks at the cache.  It sends no
    category-info request, writes nothing to the report, leaves the cache
    and the backoff controller as they were and does not descend; when
    the listing parses it returns normally. *)
Theorem cached_category_one_listing (remote : nat → string → option pyval)
    (randint : nat → Z) (fuel : nat) (alias : string) (w : World) :
  cur_cat_of alias ∈ dom (LICENSE_CACHE w) →
  ∃ r w',
    recur_record_all_licenses remote randint (S fuel) alias w = (r, w')
    ∧ requests w' = (requests w ++ [get_subcat_request_url (cur_cat_of alias)])%list
    ∧ data_file w' = data_file w
    ∧ LICENSE_CACHE w' = LICENSE_CACHE w
    ∧ backoff_untouched w w'
    ∧ r ≠ OutOfFuel
    ∧ ∀ data names,
        remote (length (requests w)) (get_subcat_request_url (cur_cat_of alias)) = Some data →
        cat_list_of data = inr names →
        r = Ok ().
Proof.
  intros Hin.
  destruct (recur_cached remote randint fuel alias w Hin) as (r & w' & Hsub & Hrun).
  destruct (get_subcategories_plain remote randint (cur_cat_of alias) w)
    as (r' & w'' & Hsub' & Hreq & Hb & [Hc Hf] & Hfuel).
  rewrite Hsub in Hsub'. injection Hsub' as <- <-.
  eexists _, _. split; [exact Hrun|]. split; [done|]. split; [done|]. split; [done|].
  split; [done|]. split; [by destruct r|].
  intros data names Hr Hp.
  rewrite (get_subcategories_parsed remote randint _ false w data names Hr Hp) in Hsub.
  by injection Hsub as <- _.
Qed.

Lemma cached_category_one_listing_witness :
  ∃ r w',
    recur_record_all_licenses Examples.remote_AB (Examples.constant_draw 1) 1 "A"
      Examples.world_A_visited = (r, w')
    ∧ requests w' = [get_subcat_request_url "A"]
    ∧ data_file w' = [Header; Row "A" 2 4]
    ∧ r = Ok ().
Proof.
  destruct (cached_category_one_listing Examples.remote_AB (Examples.constant_draw 1) 0 "A"
              Examples.world_A_visited) as (r & w' & Hrun & Hreq & Hf & _ & _ & _ & Hok).
  { vm_compute. set_solver. }
  exists r, w'. split; [exact Hrun|]. split; [exact Hreq|]. split; [exact Hf|].
  eapply Hok; by vm_compute.
Defined.

(** C1, as stated, fails: with ["A"] in the cache, the traversal on the
    alias ["A"] adds a request to the requests made so far. *)
Lemma cached_category_is_listed_again :
  "A" ∈ dom (LICENSE_CACHE Examples.world_A_visited)
  ∧ requests (recur_record_all_licenses Examples.remote_AB (Examples.constant_draw 1) 1 "A"
                Examples.world_A_visited).2
      = (requests Examples.world_A_visited ++ [get_subcat_request_url "A"])%list
  ∧ ¬ (requests (recur_record_all_licenses Examples.remote_AB (Examples.constant_draw 1) 1 "A"
                   Examples.world_A_visited).2 = requests Examples.world_A_visited
       ∧ data_file (recur_record_all_licenses Examples.remote_AB (Examples.constant_draw 1) 1
                      "A" Examples.world_A_visited).2 = data_file Examples.world_A_visited).
Proof.
  split; [vm_compute; set_solver|]. split; [by vm_compute|].
  intros [Hreq _]. vm_compute in Hreq. discriminate Hreq.
Qed.

(** ** A category-info answer without the expected structure *)

(** C2.  The default root lists ["CC-BY"] and ["CC-BY-SA"], and the
    category-info answer for ["CC-BY"] has no ["query"] field.  The run
    records the root, prints the diagnostic for ["CC-BY"], and then
    [record_license_data] subscripts [None]: a [TypeError] ends the run,
    the process exits with status 1, and ["CC-BY-SA"] is never asked
    for. *)
Theorem empty_result_ends_run :
  (main Examples.remote_empty_result (Examples.constant_draw 1) 5 initial).1
    = Raised TypeError
  ∧ (script Examples.remote_empty_result (Examples.constant_draw 1) 5 initial).1 = Some 1%Z
  ∧ data_file (script Examples.remote_empty_result (Examples.constant_draw 1) 5 initial).2
      = [Header; Row "Free_Creative_Commons_licenses" 2 4]
  ∧ stdout (script Examples.remote_empty_result (Examples.constant_draw 1) 5 initial).2
      = [OutText "DEBUG Logged Free_Creative_Commons_licenses from Free_Creative_Commons_licenses";
         OutValue Examples.error_object;
         OutText "This query will not be processed due to empty result."]
  ∧ requests (script Examples.remote_empty_result (Examples.constant_draw 1) 5 initial).2
      = [get_subcat_request_url "Free_Creative_Commons_licenses";
         get_content_request_url "Free_Creative_Commons_licenses";
         get_subcat_request_url "CC-BY";
         get_content_request_url "CC-BY"]
  ∧ (∃ data, Examples.remote_empty_result 4 (get_content_request_url "CC-BY-SA") = Some data
             ∧ counts_of data = inr (mkCounts 5 6)).
Proof.
  split; [by vm_compute|]. split; [by vm_compute|]. split; [by vm_compute|].
  split; [by vm_compute|]. split; [by vm_compute|].
  eexists. split; by vm_compute.
Qed.

(** ** Backoff and retry *)

(** C3, as the code has it.  A query whose first attempt fails and that
    was called with [eb=True] waits once in [expo_backoff] and sends the
    request a second time; called with [eb=False] it neither waits nor
    retries.  The traversal calls both queries with [eb=False], so no
    traversal ever uses the backoff controller. *)
Theorem backoff_only_with_eb (remote : nat → string → option pyval) (randint : nat → Z)
    (license : string) (w : World) :
  remote (length (requests w)) (get_subcat_request_url license)
    ≫= (λ data, succeeded (cat_list_of data)) = None →
  remote (length (requests w)) (get_content_request_url license)
    ≫= (λ data, succeeded (counts_of data)) = None →
  (sleeps (get_subcategories remote randint license true w).2
     = (sleeps w ++ [sleep_time (randint (draws w)) (CALLBACK_EXPO w)])%list
   ∧ requests (get_subcategories remote randint license true w).2
     = (requests w ++ [get_subcat_request_url license; get_subcat_request_url license])%list)
  ∧ (sleeps (get_license_contents remote randint license true w).2
       = (sleeps w ++ [sleep_time (randint (draws w)) (CALLBACK_EXPO w)])%list
     ∧ requests (get_license_contents remote randint license true w).2
       = (requests w ++ [get_content_request_url license;
                         get_content_request_url license])%list)
  ∧ (backoff_untouched w (get_subcategories remote randint license false w).2
     ∧ requests (get_subcategories remote randint license false w).2
       = (requests w ++ [get_subcat_request_url license])%list)
  ∧ (backoff_untouched w (get_license_contents remote randint license false w).2
     ∧ requests (get_license_contents remote randint license false w).2
       = (requests w ++ [get_content_request_url license])%list)
  ∧ ∀ fuel alias w0,
      backoff_untouched w0 (recur_record_all_licenses remote randint fuel alias w0).2.
Proof.
  intros Hsub Hcnt. split; [|split; [|split; [|split]]].
  - by destruct (get_subcategories_retry remote randint license w Hsub)
      as (r & w' & -> & _ & _ & Hsl & Hreq & _).
  - by destruct (get_license_contents_retry remote randint license w Hcnt)
      as (r & w' & -> & _ & _ & Hsl & Hreq & _).
  - by destruct (get_subcategories_plain remote randint license w)
      as (r & w' & -> & Hreq & Hb & _).
  - by destruct (get_license_contents_plain remote randint license w)
      as (r & w' & -> & Hreq & Hb & _).
  - intros fuel alias w0. apply recur_backoff_untouched.
Qed.

Lemma backoff_only_with_eb_witness :
  sleeps (get_subcategories Examples.remote_flaky (Examples.constant_draw 500) "A" true
            initial).2 = [sleep_time 500 0]
  ∧ requests (get_subcategories Examples.remote_flaky (Examples.constant_draw 500) "A" true
                initial).2 = [get_subcat_request_url "A"; get_subcat_request_url "A"]
  ∧ sleeps (get_subcategories Examples.remote_flaky (Examples.constant_draw 500) "A" false
              initial).2 = [].
Proof.
  destruct (backoff_only_with_eb Examples.remote_flaky (Examples.constant_draw 500) "A" initial)
    as ([Hsl Hreq] & _ & [(_ & Hsl' & _) _] & _).
  - reflexivity.
  - reflexivity.
  - split; [exact Hsl|]. split; [exact Hreq|]. exact Hsl'.
Defined.

(** C3, as stated, fails: when the first request of a run fails, the run
    ends with an [UnboundLocalError] from the handler, without any wait
    and without a second request, although the endpoint would have
    answered the second request. *)
Lemma failed_request_ends_run :
  Examples.remote_flaky 0 (get_subcat_request_url "A") = None
  ∧ (∃ data, Examples.remote_flaky 1 (get_subcat_request_url "A") = Some data
             ∧ cat_list_of data = inr ["B"])
  ∧ (recur_record_all_licenses Examples.remote_flaky (Examples.constant_draw 500) 3 "A"
       initial).1 = Raised UnboundLocalError
  ∧ sleeps (recur_record_all_licenses Examples.remote_flaky (Examples.constant_draw 500) 3 "A"
              initial).2 = []
  ∧ requests (recur_record_all_licenses Examples.remote_flaky (Examples.constant_draw 500) 3
                "A" initial).2 = [get_subcat_request_url "A"].
Proof.
  split; [done|]. split; [eexists; split; by vm_compute|].
  split; [by vm_compute|]. split; by vm_compute.
Qed.

(** ** What a failed query returns *)

(** C10.  When the first attempt of a query fails, the query never
    returns a list or a dictionary: if it returns at all, it returns
    [None].  It does return [None] in the diagnostic branch (no backoff,
    and the key tested is not in the answer) and in the retry branch
    (backoff, and the retried call returned, whatever it returned).  A
    caller then raises: [record_license_data] subscripts the [None] and
    [recur_record_all_licenses] iterates over it, a [TypeError] in both
    cases. *)
Theorem failed_query_returns_none (remote : nat → string → option pyval) (randint : nat → Z)
    (license : string) (eb : bool) (w : World) :
  remote (length (requests w)) (get_subcat_request_url license)
    ≫= (λ data, succeeded (cat_list_of data)) = None →
  remote (length (requests w)) (get_content_request_url license)
    ≫= (λ data, succeeded (counts_of data)) = None →
  (∀ v w', get_subcategories remote randint license eb w = (Ok v, w') → v = None)
  ∧ (∀ v w', get_license_contents remote randint license eb w = (Ok v, w') → v = None)
  ∧ (∀ data, eb = false →
       remote (length (requests w)) (get_subcat_request_url license) = Some data →
       contains "query" data = inr false →
       (get_subcategories remote randint license eb w).1 = Ok None)
  ∧ (∀ data, eb = false →
       remote (length (requests w)) (get_content_request_url license) = Some data →
       contains "queries" data = inr false →
       (get_license_contents remote randint license eb w).1 = Ok None)
  ∧ (∀ x w2, eb = true →
       get_subcategories remote randint license false
         (expo_backoff randint
            (requests_get_json remote (get_subcat_request_url license) w).2).2 = (Ok x, w2) →
       get_subcategories remote randint license eb w = (Ok None, w2))
  ∧ (∀ x w2, eb = true →
       get_license_contents remote randint license false
         (expo_backoff randint
            (requests_get_json remote (get_content_request_url license) w).2).2 = (Ok x, w2) →
       get_license_contents remote randint license eb w = (Ok None, w2))
  ∧ (∀ alias w',
       get_license_contents remote randint license false w = (Ok None, w') →
       record_license_data remote randint license alias w = (Raised TypeError, w'))
  ∧ (∀ fuel alias w1 w2,
       cur_cat_of alias = license →
       get_subcategories remote randint license false w = (Ok None, w1) →
       license ∉ dom (LICENSE_CACHE w) →
       record_license_data remote randint license alias w1 = (Ok (), w2) →
       ∃ w3, recur_record_all_licenses remote randint (S fuel) alias w = (Raised TypeError, w3)
             ∧ data_file w3 = data_file w2).
Proof.
  intros Hsub Hcnt.
  split; [|split; [|split; [|split; [|split; [|split; [|split]]]]]].
  - intros v w' Hrun. destruct eb.
    + destruct (get_subcategories_retry remote randint license w Hsub)
        as (r & w'' & Hrun' & Hnone & _). rewrite Hrun in Hrun'. injection Hrun' as <- <-.
      by apply Hnone.
    + destruct (get_subcategories_failed remote randint license w Hsub)
        as (r & w'' & Hrun' & Hnone & _). rewrite Hrun in Hrun'. injection Hrun' as <- <-.
      by apply Hnone.
  - intros v w' Hrun. destruct eb.
    + destruct (get_license_contents_retry remote randint license w Hcnt)
        as (r & w'' & Hrun' & Hnone & _). rewrite Hrun in Hrun'. injection Hrun' as <- <-.
      by apply Hnone.
    + destruct (get_license_contents_failed remote randint license w Hcnt)
        as (r & w'' & Hrun' & Hnone & _). rewrite Hrun in Hrun'. injection Hrun' as <- <-.
      by apply Hnone.
  - intros data -> Hr Hin.
    destruct (get_subcategories_failed remote randint license w Hsub)
      as (r & w'' & -> & _ & Hcase). by rewrite Hr, Hin in Hcase.
  - intros data -> Hr Hin.
    destruct (get_license_contents_failed remote randint license w Hcnt)
      as (r & w'' & -> & _ & Hcase). by rewrite Hr, Hin in Hcase.
  - intros x w2 -> Hretry.
    destruct (get_subcategories_retry remote randint license w Hsub)
      as (r & w'' & -> & _ & _ & _ & _ & _ & Hret).
    by destruct (Hret x w2 Hretry) as [-> ->].
  - intros x w2 -> Hretry.
    destruct (get_license_contents_retry remote randint license w Hcnt)
      as (r & w'' & -> & _ & _ & _ & _ & _ & Hret).
    by destruct (Hret x w2 Hretry) as [-> ->].
  - intros alias w'. apply record_license_data_none.
  - intros fuel alias w1 w2 <-. apply recur_none.
Qed.

Lemma failed_query_returns_none_witness :
  (get_subcategories (λ _ _, Some Examples.error_object) (Examples.constant_draw 1)
     "CC-BY" false initial).1 = Ok None
  ∧ (get_license_contents (λ _ _, Some Examples.error_object) (Examples.constant_draw 1)
       "CC-BY" false initial).1 = Ok None.
Proof.
  destruct (failed_query_returns_none (λ _ _, Some Examples.error_object)
              (Examples.constant_draw 1) "CC-BY" false initial)
    as (_ & _ & Hsub & Hcnt & _).
  - reflexivity.
  - reflexivity.
  - split.
    + apply (Hsub Examples.error_object); reflexivity.
    + apply (Hcnt Examples.error_object); reflexivity.
Defined.

(** * Further properties of the script *)

Import Invariants.

(** ** The backoff controller over a process *)

Section BackoffSchedule.

Variable randint : nat → Z.
Hypothesis randint_range : ∀ k, (1 ≤ randint k ≤ 1000)%Z.

Lemma next_expo_min (r : Z) (e : nat) :
  (1 ≤ r ≤ 1000)%Z → e ≤ 6 → next_expo r e = Nat.min (S e) 6.
Proof.
  intros Hr He. destruct (decide (e ≤ 5)) as [He5|He5].
  - rewrite Nat.min_l by lia. apply next_expo_S, backoff_below; [lia|done].
  - rewrite Nat.min_r by lia. assert (e = 6) as -> by lia.
    apply next_expo_same, backoff_above; [lia|done].
Qed.

Lemma sleep_time_below (r : Z) (e : nat) :
  (1 ≤ r ≤ 1000)%Z → e ≤ 5 →
  (sleep_time r e == backoff r e)%Q
  ∧ (inject_Z (CALLBACK_INDEX ^ Z.of_nat e) < sleep_time r e)%Q
  ∧ (sleep_time r e <= inject_Z (CALLBACK_INDEX ^ Z.of_nat e) + 1)%Q.
Proof.
  intros Hr He. pose proof (backoff_below r e (proj2 Hr) He) as Hb.
  assert (sleep_time r e == backoff r e)%Q as Heq.
  { unfold sleep_time. apply Q.min_l. by apply Qlt_le_weak. }
  split; [done|]. rewrite Heq. unfold backoff.
  destruct (jitter_range r Hr) as [Hj1 Hj2]. split; lra.
Qed.

Lemma sleep_time_saturated (r : Z) (e : nat) :
  (1 ≤ r ≤ 1000)%Z → 6 ≤ e → (sleep_time r e == inject_Z MAX_WAIT)%Q.
Proof.
  intros Hr He. unfold sleep_time. apply Q.min_r. apply backoff_above; [lia|done].
Qed.

Lemma backoff_calls_schedule (n : nat) : ∀ w,
  CALLBACK_EXPO w ≤ 6 →
  ∃ wn,
    backoff_calls randint n w = (Ok (), wn)
    ∧ CALLBACK_EXPO wn = Nat.min (CALLBACK_EXPO w + n) 6
    ∧ draws wn = draws w + n
    ∧ sleeps wn =
        (sleeps w ++
         ((λ k, sleep_time (randint (draws w + k)) (Nat.min (CALLBACK_EXPO w + k) 6))
            <$> seq 0 n))%list.
Proof using randint_range.
  induction n as [|n IH]; intros w He.
  - exists w. cbn. rewrite Nat.add_0_r, app_nil_r, Nat.min_l by done. done.
  - cbn [backoff_calls]. unfold mbind, M_bind. rewrite expo_backoff_run.
    match goal with |- context [backoff_calls randint n ?w1] =>
      destruct (IH w1) as (wn & Hrun & Hexpo & Hdraws & Hsl) end.
    { cbn. rewrite next_expo_min by done. lia. }
    cbn in Hexpo, Hdraws, Hsl. rewrite next_expo_min in Hexpo by done.
    exists wn. split; [done|]. split; [rewrite Hexpo; lia|]. split; [lia|].
    rewrite Hsl, <- app_assoc. f_equal. cbn [seq]. rewrite fmap_cons. cbn [app].
    f_equal.
    + rewrite !Nat.add_0_r, Nat.min_l by done. done.
    + rewrite <- fmap_S_seq, <- list_fmap_compose. apply list_fmap_ext.
      intros _ k _. cbn. rewrite next_expo_min by done.
      replace (draws w + S k) with (S (draws w + k)) by lia. f_equal. lia.
Qed.

End BackoffSchedule.

(** X1.  [expo_backoff_reset] sets the exponent to 0 and changes nothing
    else; the wait that follows it sleeps one second plus the jitter, at
    most two seconds, whatever the exponent was before the reset. *)
Theorem reset_then_wait (randint : nat → Z) (w : World) :
  (∀ k, (1 ≤ randint k ≤ 1000)%Z) →
  ∃ w1 w2,
    expo_backoff_reset w = (Ok (), w1)
    ∧ CALLBACK_EXPO w1 = 0
    ∧ LICENSE_CACHE w1 = LICENSE_CACHE w ∧ data_file w1 = data_file w
    ∧ requests w1 = requests w ∧ sleeps w1 = sleeps w ∧ draws w1 = draws w
    ∧ stdout w1 = stdout w ∧ stderr w1 = stderr w
    ∧ expo_backoff randint w1 = (Ok (), w2)
    ∧ sleeps w2 = (sleeps w ++ [sleep_time (randint (draws w)) 0])%list
    ∧ (sleep_time (randint (draws w)) 0 == jitter (randint (draws w)) + 1)%Q
    ∧ (1 < sleep_time (randint (draws w)) 0)%Q
    ∧ (sleep_time (randint (draws w)) 0 <= 2)%Q
    ∧ CALLBACK_EXPO w2 = 1.
Proof.
  intros Hrange. eexists _, _. split; [reflexivity|]. cbn.
  do 8 (split; [done|]). split; [apply expo_backoff_run|]. cbn.
  split; [done|].
  destruct (sleep_time_below (randint (draws w)) 0 (Hrange _)) as (Heq & Hlo & Hhi); [lia|].
  split; [by rewrite Heq|]. split; [exact Hlo|]. split; [exact Hhi|].
  apply next_expo_S, backoff_below; [apply Hrange|lia].
Qed.

Lemma reset_then_wait_witness :
  ∃ w1 w2,
    expo_backoff_reset (mkWorld 6 ∅ [] [] [] 0 [] []) = (Ok (), w1)
    ∧ CALLBACK_EXPO w1 = 0
    ∧ expo_backoff (Examples.constant_draw 500) w1 = (Ok (), w2)
    ∧ sleeps w2 = [sleep_time 500 0]
    ∧ (sleep_time 500 0 <= 2)%Q
    ∧ CALLBACK_EXPO w2 = 1.
Proof.
  destruct (reset_then_wait (Examples.constant_draw 500) (mkWorld 6 ∅ [] [] [] 0 [] []))
    as (w1 & w2 & Hreset & He & _ & _ & _ & _ & _ & _ & _ & Hwait & Hsl & _ & _ & Hle & He2).
  { intros k. unfold Examples.constant_draw. lia. }
  exists w1, w2. split; [exact Hreset|]. split; [exact He|]. split; [exact Hwait|].
  split; [exact Hsl|]. split; [exact Hle|]. exact He2.
Defined.

(** X2.  Over consecutive calls of [expo_backoff] with no reset, from an
    exponent of at most 6, the exponent after [n] calls is the least of
    the exponent before plus [n] and 6, so it never exceeds 6; each call
    draws once; the [k]-th call sleeps [sleep_time] at the exponent
    reached by then.  Below exponent 6 a sleep is more than the power of
    two and at most one second above it; at exponent 6 it is 64 seconds. *)
Theorem backoff_schedule (randint : nat → Z) (n : nat) (w : World) :
  (∀ k, (1 ≤ randint k ≤ 1000)%Z) →
  CALLBACK_EXPO w ≤ 6 →
  (∃ wn,
     backoff_calls randint n w = (Ok (), wn)
     ∧ CALLBACK_EXPO wn = Nat.min (CALLBACK_EXPO w + n) 6
     ∧ draws wn = draws w + n
     ∧ sleeps wn =
         (sleeps w ++
          ((λ k, sleep_time (randint (draws w + k)) (Nat.min (CALLBACK_EXPO w + k) 6))
             <$> seq 0 n))%list)
  ∧ (∀ k e, e ≤ 5 →
       (inject_Z (CALLBACK_INDEX ^ Z.of_nat e) < sleep_time (randint k) e)%Q
       ∧ (sleep_time (randint k) e <= inject_Z (CALLBACK_INDEX ^ Z.of_nat e) + 1)%Q)
  ∧ (∀ k, (sleep_time (randint k) 6 == inject_Z MAX_WAIT)%Q).
Proof.
  intros Hrange He. split; [by apply backoff_calls_schedule|]. split.
  - intros k e He5. by destruct (sleep_time_below (randint k) e (Hrange k) He5) as (_ & ? & ?).
  - intros k. by apply sleep_time_saturated.
Qed.

Lemma backoff_schedule_witness :
  ∃ wn,
    backoff_calls (Examples.constant_draw 500) 8 initial = (Ok (), wn)
    ∧ CALLBACK_EXPO wn = 6
    ∧ sleeps wn = (λ e, sleep_time 500 e) <$> [0; 1; 2; 3; 4; 5; 6; 6].
Proof.
  destruct (backoff_schedule (Examples.constant_draw 500) 8 initial)
    as [(wn & Hrun & He & _ & Hsl) _].
  { intros k. unfold Examples.constant_draw. lia. }
  { cbn. lia. }
  exists wn. split; [exact Hrun|]. split; [exact He|]. exact Hsl.
Defined.

(** ** The request URLs *)

Section UrlFacts.

Lemma length_append (a s : string) :
  String.length (a +:+ s) = String.length a + String.length s.
Proof. induction a as [|c a IH]; [done|]. rewrite append_cons. cbn. by rewrite IH. Qed.

Lemma append_inv_tail (s : string) : ∀ a b, a +:+ s = b +:+ s → a = b.
Proof.
  induction a as [|c a IH]; intros [|d b] Heq.
  - done.
  - apply (f_equal String.length) in Heq. rewrite !length_append in Heq. cbn in Heq. lia.
  - apply (f_equal String.length) in Heq. rewrite !length_append in Heq. cbn in Heq. lia.
  - rewrite !append_cons in Heq. injection Heq as -> Heq. f_equal. by apply IH.
Qed.

Lemma get_content_request_url_inj (a b : string) :
  get_content_request_url a = get_content_request_url b → a = b.
Proof.
  unfold get_content_request_url. intros Heq.
  do 3 apply String.app_inj in Heq. by apply append_inv_tail in Heq.
Qed.

Lemma get_subcat_request_url_inj (a b : string) :
  get_subcat_request_url a = get_subcat_request_url b → a = b.
Proof.
  unfold get_subcat_request_url. intros Heq.
  do 3 apply String.app_inj in Heq. by apply append_inv_tail in Heq.
Qed.

Lemma request_urls_differ (a b : string) :
  get_content_request_url a ≠ get_subcat_request_url b.
Proof.
  unfold get_content_request_url, get_subcat_request_url. intros Heq.
  apply String.app_inj in Heq. rewrite !append_cons in Heq. by simplify_eq.
Qed.

End UrlFacts.

(** X3.  The two URL builders are injective and never give the same URL:
    two requests of a run have the same URL only when they are the same
    query for the same category name. *)
Theorem request_urls_distinct (a b : string) :
  (get_content_request_url a = get_content_request_url b ↔ a = b)
  ∧ (get_subcat_request_url a = get_subcat_request_url b ↔ a = b)
  ∧ get_content_request_url a ≠ get_subcat_request_url b.
Proof.
  split; [|split].
  - split; [apply get_content_request_url_inj|by intros ->].
  - split; [apply get_subcat_request_url_inj|by intros ->].
  - apply request_urls_differ.
Qed.

(** ** Splitting a string on a character *)

Section SplitFacts.

Variable c : ascii.

Lemma contains_char_cons (a : ascii) (s : string) :
  PyStr.contains (String c EmptyString) (String a s)
    = Ascii.eqb a c || PyStr.contains (String c EmptyString) s.
Proof. cbn [PyStr.contains]. by rewrite prefix_char. Qed.

Lemma contains_char_app (p s : string) :
  PyStr.contains (String c EmptyString) (p +:+ s)
    = PyStr.contains (String c EmptyString) p || PyStr.contains (String c EmptyString) s.
Proof.
  induction p as [|a p IH].
  - change (EmptyString +:+ s) with s. by destruct s.
  - rewrite append_cons, !contains_char_cons, IH. by rewrite orb_assoc.
Qed.

Lemma split_char_plain (s : string) :
  PyStr.contains (String c EmptyString) s = false → PyStr.split c s = [s].
Proof.
  induction s as [|a s IH]; [done|].
  rewrite contains_char_cons. cbn [PyStr.split].
  intros [Ha Hs]%orb_false_iff. rewrite Ha, IH; done.
Qed.

Lemma split_char_app (p s : string) :
  PyStr.contains (String c EmptyString) p = false →
  PyStr.split c (p +:+ String c s) = p :: PyStr.split c s.
Proof.
  induction p as [|a p IH].
  - intros _. change (EmptyString +:+ String c s) with (String c s).
    cbn [PyStr.split]. by rewrite Ascii.eqb_refl.
  - rewrite contains_char_cons. intros [Ha Hp]%orb_false_iff.
    rewrite append_cons. cbn [PyStr.split]. by rewrite Ha, IH.
Qed.

Lemma split_char_items (s : string) :
  Forall (λ x, PyStr.contains (String c EmptyString) x = false) (PyStr.split c s).
Proof.
  induction s as [|a s IH]; [by repeat constructor|].
  cbn [PyStr.split]. destruct (Ascii.eqb a c) eqn:Ha.
  - by constructor.
  - destruct (PyStr.split c s) as [|h t].
    + repeat constructor. rewrite contains_char_cons, Ha. done.
    + apply Forall_cons in IH as [Hh Ht]. constructor; [|done].
      by rewrite contains_char_cons, Ha.
Qed.

Lemma split_char_last (s : string) : is_Some (last (PyStr.split c s)).
Proof.
  induction s as [|a s IH]; [by eexists|].
  cbn [PyStr.split]. destruct (Ascii.eqb a c).
  - destruct (PyStr.split c s); [by destruct IH|]. done.
  - destruct (PyStr.split c s) as [|h t]; [by eexists|].
    destruct t; [by eexists|]. done.
Qed.

End SplitFacts.

(** ** Names returned by the listing, in a request URL *)

Section NameFacts.

Variable remote : nat → string → option pyval.
Variable randint : nat → Z.

Lemma member_name_no_amp (member : pyval) (name : string) :
  member_name member = inr name → PyStr.contains "&" name = false.
Proof.
  unfold member_name. destruct (getitem member _) as [e|title]; [done|]. cbn.
  destruct (str_replace title _ _) as [e|stripped]; [done|]. cbn.
  intros [= <-]. rewrite replace_amp. apply escape_no_amp.
Qed.

Lemma mapM_member_name_no_amp (members : list pyval) : ∀ names,
  mapM member_name members = inr names →
  Forall (λ name, PyStr.contains "&" name = false) names.
Proof.
  induction members as [|m ms IH]; intros names.
  - intros [= <-]. constructor.
  - cbn [mapM]. destruct (member_name m) as [e|name] eqn:Hm; [done|]. cbn.
    destruct (mapM member_name ms) as [e|names'] eqn:Hms; [done|]. cbn.
    intros [= <-]. constructor; [by eapply member_name_no_amp|by apply IH].
Qed.

Lemma cat_list_of_no_amp (data : pyval) (names : list string) :
  cat_list_of data = inr names →
  Forall (λ name, PyStr.contains "&" name = false) names.
Proof.
  unfold cat_list_of. destruct (getitem data _) as [e|query]; [done|]. cbn.
  destruct (getitem query _) as [e|members]; [done|]. cbn.
  destruct (iter members) as [e|items]; [done|]. cbn.
  apply mapM_member_name_no_amp.
Qed.

(** A list comes back only from an answer that parsed. *)
Lemma get_subcategories_some (license : string) (eb : bool) (w w' : World)
    (names : list string) :
  get_subcategories remote randint license eb w = (Ok (Some names), w') →
  ∃ data, remote (length (requests w)) (get_subcat_request_url license) = Some data
          ∧ cat_list_of data = inr names.
Proof.
  rewrite get_subcategories_eq. cbn zeta.
  destruct (remote _ _) as [data|] eqn:Hr; cbn.
  - destruct (cat_list_of data) as [e|names'] eqn:Hp; cbn.
    + destruct eb.
      * rewrite handler_backoff. by destruct (get_subcategories _ _ _ _ _).1.
      * match goal with |- context [handler randint ?k ?m ?rt false ?sd ?w1] =>
          destruct (handler_plain randint k m rt sd w1) as (r & w2 & -> & _ & _ & _ & Hr') end.
        cbn in Hr'. destruct (contains _ _) as [?|[]]; destruct_and?; by subst.
    + intros [= <- <-]. by exists data.
  - destruct eb.
    + rewrite handler_backoff. by destruct (get_subcategories _ _ _ _ _).1.
    + match goal with |- context [handler randint ?k ?m ?rt false ?sd ?w1] =>
        destruct (handler_plain randint k m rt sd w1) as (r & w2 & -> & _ & _ & _ & Hr') end.
      by subst.
Qed.

Lemma content_url_parameters (name : string) :
  PyStr.contains "&" name = false →
  PyStr.split "&" (get_content_request_url name)
    = ["https://commons.wikimedia.org/w/api.php?action=query";
       "prop=categoryinfo"; "titles=Category:" +:+ name; "format=json"].
Proof.
  intros Hname.
  change (get_content_request_url name)
    with ("https://commons.wikimedia.org/w/api.php?action=query"
          +:+ String "&" ("prop=categoryinfo"
          +:+ String "&" (("titles=Category:" +:+ name) +:+ String "&" "format=json"))).
  rewrite split_char_app by done. rewrite split_char_app by done.
  rewrite split_char_app by (by rewrite contains_char_app, Hname).
  by rewrite split_char_plain.
Qed.

Lemma subcat_url_parameters (name : string) :
  PyStr.contains "&" name = false →
  PyStr.split "&" (get_subcat_request_url name)
    = ["https://commons.wikimedia.org/w/api.php?action=query";
       "cmtitle=Category:" +:+ name; "cmtype=subcat"; "list=categorymembers";
       "format=json"].
Proof.
  intros Hname.
  change (get_subcat_request_url name)
    with ("https://commons.wikimedia.org/w/api.php?action=query"
          +:+ String "&" (("cmtitle=Category:" +:+ name)
          +:+ String "&" ("cmtype=subcat"
          +:+ String "&" ("list=categorymembers" +:+ String "&" "format=json")))).
  rewrite split_char_app by done.
  rewrite split_char_app by (by rewrite contains_char_app, Hname).
  rewrite split_char_app by done. rewrite split_char_app by done.
  by rewrite split_char_plain.
Qed.

End NameFacts.

(** X4.  Whatever the endpoint answers, a list returned by
    [get_subcategories] holds no name with an ampersand, so the request
    URLs the script builds from such a name have the parameters of the
    template and no other: split at the ampersands, the category-info URL
    has four parts and the listing URL five, the name being in the title
    parameter. *)
Theorem listed_names_keep_query_shape (remote : nat → string → option pyval)
    (randint : nat → Z) (license : string) (eb : bool) (w w' : World)
    (names : list string) :
  get_subcategories remote randint license eb w = (Ok (Some names), w') →
  Forall (λ name,
    PyStr.contains "&" name = false
    ∧ PyStr.split "&" (get_content_request_url name)
        = ["https://commons.wikimedia.org/w/api.php?action=query";
           "prop=categoryinfo"; "titles=Category:" +:+ name; "format=json"]
    ∧ PyStr.split "&" (get_subcat_request_url name)
        = ["https://commons.wikimedia.org/w/api.php?action=query";
           "cmtitle=Category:" +:+ name; "cmtype=subcat"; "list=categorymembers";
           "format=json"]) names.
Proof.
  intros Hrun.
  destruct (get_subcategories_some remote randint license eb w w' names Hrun)
    as (data & _ & Hp).
  eapply Forall_impl; [exact (cat_list_of_no_amp data names Hp)|].
  intros name Hname. split; [done|].
  split; [by apply content_url_parameters|by apply subcat_url_parameters].
Qed.

Lemma listed_names_keep_query_shape_witness :
  get_subcategories (λ _ _, Some (Examples.subcat_response ["Category:Things & Stuff"]))
    (Examples.constant_draw 1) "A" false initial
    = (Ok (Some ["Things %26 Stuff"]),
       (get_subcategories (λ _ _, Some (Examples.subcat_response ["Category:Things & Stuff"]))
          (Examples.constant_draw 1) "A" false initial).2)
  ∧ PyStr.split "&" (get_content_request_url "Things %26 Stuff")
      = ["https://commons.wikimedia.org/w/api.php?action=query";
         "prop=categoryinfo"; "titles=Category:Things %26 Stuff"; "format=json"].
Proof.
  assert (get_subcategories
            (λ _ _, Some (Examples.subcat_response ["Category:Things & Stuff"]))
            (Examples.constant_draw 1) "A" false initial
          = (Ok (Some ["Things %26 Stuff"]),
             (get_subcategories
                (λ _ _, Some (Examples.subcat_response ["Category:Things & Stuff"]))
                (Examples.constant_draw 1) "A" false initial).2)) as Hrun by (by vm_compute).
  split; [exact Hrun|].
  pose proof (listed_names_keep_query_shape _ _ _ _ _ _ _ Hrun) as Hall.
  apply Forall_cons in Hall as [(_ & Hurl & _) _]. exact Hurl.
Defined.

(** ** What one query costs *)

(** X5.  Whatever the endpoint answers, a call of [get_subcategories] or
    of [get_license_contents] leaves the report and the cache alone and
    costs either one request and no wait, or, only when it was called with
    [eb=True], two requests of the same URL and one wait of at most
    [MAX_WAIT]: no query polls the endpoint more than twice. *)
Theorem query_cost_bounded (remote : nat → string → option pyval) (randint : nat → Z)
    (license : string) (eb : bool) (w : World) :
  (store_untouched w (get_subcategories remote randint license eb w).2
   ∧ (get_subcategories remote randint license eb w).1 ≠ OutOfFuel
   ∧ ((requests (get_subcategories remote randint license eb w).2
         = (requests w ++ [get_subcat_request_url license])%list
       ∧ backoff_untouched w (get_subcategories remote randint license eb w).2)
      ∨ (eb = true
         ∧ requests (get_subcategories remote randint license eb w).2
             = (requests w ++ [get_subcat_request_url license;
                               get_subcat_request_url license])%list
         ∧ ∃ t, sleeps (get_subcategories remote randint license eb w).2
                  = (sleeps w ++ [t])%list
                ∧ (t <= inject_Z MAX_WAIT)%Q)))
  ∧ (store_untouched w (get_license_contents remote randint license eb w).2
     ∧ (get_license_contents remote randint license eb w).1 ≠ OutOfFuel
     ∧ ((requests (get_license_contents remote randint license eb w).2
           = (requests w ++ [get_content_request_url license])%list
         ∧ backoff_untouched w (get_license_contents remote randint license eb w).2)
        ∨ (eb = true
           ∧ requests (get_license_contents remote randint license eb w).2
               = (requests w ++ [get_content_request_url license;
                                 get_content_request_url license])%list
           ∧ ∃ t, sleeps (get_license_contents remote randint license eb w).2
                    = (sleeps w ++ [t])%list
                  ∧ (t <= inject_Z MAX_WAIT)%Q))).
Proof.
  split.
  - destruct eb.
    + destruct (remote (length (requests w)) (get_subcat_request_url license)
                  ≫= (λ data, succeeded (cat_list_of data))) as [names|] eqn:Hp.
      * rewrite get_subcategories_eq. cbn zeta. rewrite Hp. cbn.
        split; [done|]. split; [done|]. by left.
      * destruct (get_subcategories_retry remote randint license w Hp)
          as (r & w' & -> & _ & Hfuel & Hsl & Hreq & Hst & _). cbn.
        split; [done|]. split; [done|]. right. split; [done|]. split; [done|].
        eexists. split; [exact Hsl|]. apply sleep_time_capped.
    + destruct (get_subcategories_plain remote randint license w)
        as (r & w' & -> & Hreq & Hb & Hst & Hfuel). cbn.
      split; [done|]. split; [done|]. by left.
  - destruct eb.
    + destruct (remote (length (requests w)) (get_content_request_url license)
                  ≫= (λ data, succeeded (counts_of data))) as [c|] eqn:Hp.
      * rewrite get_license_contents_eq. cbn zeta. rewrite Hp. cbn.
        split; [done|]. split; [done|]. by left.
      * destruct (get_license_contents_retry remote randint license w Hp)
          as (r & w' & -> & _ & Hfuel & Hsl & Hreq & Hst & _). cbn.
        split; [done|]. split; [done|]. right. split; [done|]. split; [done|].
        eexists. split; [exact Hsl|]. apply sleep_time_capped.
    + destruct (get_license_contents_plain remote randint license w)
        as (r & w' & -> & Hreq & Hb & Hst & Hfuel). cbn.
      split; [done|]. split; [done|]. by left.
Qed.

(** ** The branches of the handler *)

Section HandlerFacts.

Variable remote : nat → string → option pyval.
Variable randint : nat → Z.

(** The handler without backoff, on an answer that is a JSON object. *)
Lemma handler_plain_dict {A} (key message : string) (retry : M (option A))
    (d : gmap string pyval) (w : World) :
  handler randint key message retry false (Some (PDict d)) w =
    if bool_decide (is_Some (d !! key))
    then (Exited 1,
          mkWorld (CALLBACK_EXPO w) (LICENSE_CACHE w) (data_file w) (requests w)
                  (sleeps w) (draws w) (stdout w) (stderr w ++ error_report))
    else (Ok None,
          mkWorld (CALLBACK_EXPO w) (LICENSE_CACHE w) (data_file w) (requests w)
                  (sleeps w) (draws w)
                  (stdout w ++ [OutValue (PDict d); OutText message]) (stderr w)).
Proof.
  unfold handler, lift, mbind, M_bind. cbn.
  destruct (bool_decide _); cbn; by rewrite <- ?app_assoc.
Qed.

(** The handler without backoff, when the request itself raised. *)
Lemma handler_plain_unbound {A} (key message : string) (retry : M (option A)) (w : World) :
  handler randint key message retry false None w = (Raised UnboundLocalError, w).
Proof. reflexivity. Qed.

End HandlerFacts.

(** X6.  For an answer that is a JSON object and does not parse, a query
    called without backoff tests one key of the object: with the key
    absent it prints the object and a message and returns [None], with
    the key present it prints the error report and exits with status 1.
    [get_subcategories] tests ["query"], [get_license_contents] tests
    ["queries"]; so an object that has a ["query"] field of the wrong
    shape is fatal for the listing and a mere diagnostic for the
    category info.  When the request itself raises, both end in
    [UnboundLocalError]. *)
Theorem failed_answer_branches (remote : nat → string → option pyval) (randint : nat → Z)
    (license : string) (w : World) (d_sub d_cnt : gmap string pyval) :
  remote (length (requests w)) (get_subcat_request_url license) = Some (PDict d_sub) →
  succeeded (cat_list_of (PDict d_sub)) = None →
  remote (length (requests w)) (get_content_request_url license) = Some (PDict d_cnt) →
  succeeded (counts_of (PDict d_cnt)) = None →
  (get_subcategories remote randint license false w).1
    = (if bool_decide (is_Some (d_sub !! "query")) then Exited 1 else Ok None)
  ∧ stdout (get_subcategories remote randint license false w).2
    = (if bool_decide (is_Some (d_sub !! "query")) then stdout w
       else stdout w ++ [OutValue (PDict d_sub);
                         OutText "This query will not be processed due to empty subcats."])%list
  ∧ stderr (get_subcategories remote randint license false w).2
    = (if bool_decide (is_Some (d_sub !! "query")) then stderr w ++ error_report
       else stderr w)%list
  ∧ (get_license_contents remote randint license false w).1
    = (if bool_decide (is_Some (d_cnt !! "queries")) then Exited 1 else Ok None)
  ∧ stdout (get_license_contents remote randint license false w).2
    = (if bool_decide (is_Some (d_cnt !! "queries")) then stdout w
       else stdout w ++ [OutValue (PDict d_cnt);
                         OutText "This query will not be processed due to empty result."])%list
  ∧ stderr (get_license_contents remote randint license false w).2
    = (if bool_decide (is_Some (d_cnt !! "queries")) then stderr w ++ error_report
       else stderr w)%list
  ∧ ∀ remote' license' w0,
      remote' (length (requests w0)) (get_subcat_request_url license') = None →
      remote' (length (requests w0)) (get_content_request_url license') = None →
      (get_subcategories remote' randint license' false w0).1 = Raised UnboundLocalError
      ∧ (get_license_contents remote' randint license' false w0).1 = Raised UnboundLocalError.
Proof.
  intros Hrs Hps Hrc Hpc.
  rewrite get_subcategories_eq, get_license_contents_eq. cbn zeta.
  rewrite Hrs, Hrc. cbn [mbind option_bind]. rewrite Hps, Hpc, !handler_plain_dict.
  split; [by destruct (bool_decide _)|]. split; [by destruct (bool_decide _)|].
  split; [by destruct (bool_decide _)|]. split; [by destruct (bool_decide _)|].
  split; [by destruct (bool_decide _)|]. split; [by destruct (bool_decide _)|].
  intros remote' license' w0 Hs Hc.
  rewrite get_subcategories_eq, get_license_contents_eq. cbn zeta. by rewrite Hs, Hc.
Qed.

Lemma failed_answer_branches_witness :
  (get_subcategories (λ _ _, Some (PDict {[ "query" := PDict ∅ ]}))
     (Examples.constant_draw 1) "A" false initial).1 = Exited 1
  ∧ (get_license_contents (λ _ _, Some (PDict {[ "query" := PDict ∅ ]}))
       (Examples.constant_draw 1) "A" false initial).1 = Ok None.
Proof.
  destruct (failed_answer_branches (λ _ _, Some (PDict {[ "query" := PDict ∅ ]}))
              (Examples.constant_draw 1) "A" initial
              {[ "query" := PDict ∅ ]} {[ "query" := PDict ∅ ]})
    as (Hsub & _ & _ & Hcnt & _).
  - reflexivity.
  - reflexivity.
  - reflexivity.
  - reflexivity.
  - split; [exact Hsub|exact Hcnt].
Defined.

(** ** An entry without counts *)

Section PartialFacts.

Lemma count_loop_fails (pages : gmap string pyval) (id : string) (entry : pyval)
    (err : Exn) (ids : list string) : ∀ file_cnt page_cnt,
  pages !! id = Some entry →
  getitem entry (PStr "categoryinfo") = inl err →
  id ∈ ids →
  succeeded (count_loop (PDict pages) (PStr <$> ids) file_cnt page_cnt) = None.
Proof.
  intros file_cnt page_cnt Hentry Hinfo Hin. revert file_cnt page_cnt.
  induction ids as [|x ids IH]; intros file_cnt page_cnt; [by apply elem_of_nil in Hin|].
  cbn [fmap list_fmap count_loop].
  destruct (decide (x = id)) as [->|Hne].
  - cbn. rewrite Hentry. cbn. by rewrite Hinfo.
  - assert (id ∈ ids) as Hin' by (by apply elem_of_cons in Hin as [->|?]).
    destruct (getitem (PDict pages) (PStr x)) as [?|lic_content]; [done|]. cbn.
    destruct (getitem lic_content (PStr "categoryinfo")) as [?|info]; [done|]. cbn.
    destruct (getitem info (PStr "files")) as [?|files]; [done|]. cbn.
    destruct (int_add file_cnt files) as [?|file_cnt']; [done|]. cbn.
    destruct (getitem info (PStr "pages")) as [?|pages_n]; [done|]. cbn.
    destruct (int_add page_cnt pages_n) as [?|page_cnt']; [done|]. cbn.
    by apply IH.
Qed.

End PartialFacts.

(** X7.  One page-id entry without a ["categoryinfo"] (the shape of the
    answer for a category that does not exist) makes the whole
    category-info answer fail to parse, whatever the other entries hold:
    no partial sum is returned.  Without backoff and without a
    ["queries"] key the query returns [None], and [record_license_data]
    raises [TypeError] and writes no row. *)
Theorem entry_without_counts_fails_query (remote : nat → string → option pyval)
    (randint : nat → Z) (license alias : string) (w : World)
    (d q pages : gmap string pyval) (id : string) (entry : pyval) (err : Exn) :
  remote (length (requests w)) (get_content_request_url license) = Some (PDict d) →
  d !! "query" = Some (PDict q) →
  q !! "pages" = Some (PDict pages) →
  pages !! id = Some entry →
  getitem entry (PStr "categoryinfo") = inl err →
  d !! "queries" = None →
  succeeded (counts_of (PDict d)) = None
  ∧ (get_license_contents remote randint license false w).1 = Ok None
  ∧ (record_license_data remote randint license alias w).1 = Raised TypeError
  ∧ data_file (record_license_data remote randint license alias w).2 = data_file w.
Proof.
  intros Hr Hq Hp Hentry Hinfo Hkey.
  assert (succeeded (counts_of (PDict d)) = None) as Hfail.
  { unfold counts_of. cbn. rewrite Hq. cbn. rewrite Hp. cbn.
    apply (count_loop_fails pages id entry err); [done..|].
    apply list_elem_of_fmap. exists (id, entry). split; [done|].
    by apply elem_of_map_to_list. }
  split; [done|].
  assert (get_license_contents remote randint license false w
          = (Ok None, (get_license_contents remote randint license false w).2)) as Hrun.
  { rewrite get_license_contents_eq. cbn zeta. rewrite Hr. cbn [mbind option_bind].
    rewrite Hfail, handler_plain_dict, bool_decide_eq_false_2; [done|].
    rewrite Hkey. by intros [? ?]. }
  split; [by rewrite Hrun|].
  rewrite (record_license_data_none remote randint license alias w _ Hrun). cbn.
  split; [done|].
  by destruct (get_license_contents_plain remote randint license w)
    as (r & w' & -> & _ & _ & [_ Hf] & _).
Qed.

Lemma entry_without_counts_fails_query_witness :
  (record_license_data
     (λ _ _, Some (PDict {[ "query" := PDict {[ "pages" := PDict
        (<[ "-1" := PDict {[ "missing" := PStr "" ]} ]>
           {[ "7" := Examples.page_entry (3, 5)%Z ]}) ]} ]}))
     (Examples.constant_draw 1) "Gone" "A/Gone" initial).1 = Raised TypeError.
Proof.
  eapply (entry_without_counts_fails_query _ (Examples.constant_draw 1) "Gone" "A/Gone"
            initial _ _ _ "-1" (PDict {[ "missing" := PStr "" ]}) KeyError).
  - reflexivity.
  - reflexivity.
  - reflexivity.
  - reflexivity.
  - reflexivity.
  - reflexivity.
Defined.

(** ** The cache and the report stay in step *)

#[global] Instance in_sync_preorder : PreOrder in_sync.
Proof.
  split.
  - intros w. exists []. rewrite app_nil_r. split; [done|]. intros k.
    by rewrite decide_False by (cbn; apply not_elem_of_nil).
  - intros w1 w2 w3 (rows1 & Hf1 & Hc1) (rows2 & Hf2 & Hc2).
    exists (rows1 ++ rows2). split; [by rewrite Hf2, Hf1, app_assoc|].
    intros k. rewrite Hc2, Hc1, fmap_app.
    destruct (decide (k ∈ row_category <$> rows2)) as [H2|H2].
    + rewrite decide_True by (apply elem_of_app; by right). done.
    + destruct (decide (k ∈ row_category <$> rows1)) as [H1|H1].
      * rewrite decide_True by (apply elem_of_app; by left). done.
      * rewrite decide_False; [done|]. by intros [?|?]%elem_of_app.
Qed.

Lemma store_untouched_in_sync (w w' : World) : store_untouched w w' → in_sync w w'.
Proof.
  intros [Hc Hf]. exists []. rewrite app_nil_r, Hc. split; [done|]. intros k.
  by rewrite decide_False by (cbn; apply not_elem_of_nil).
Qed.

Section SyncFacts.

Variable remote : nat → string → option pyval.
Variable randint : nat → Z.

Lemma recur_in_sync (fuel : nat) : ∀ alias,
  stable in_sync (recur_record_all_licenses remote randint fuel alias).
Proof.
  induction fuel as [|fuel IH]; intros alias w; [reflexivity|].
  cbn [recur_record_all_licenses].
  destruct (get_subcategories_plain remote randint (cur_cat_of alias) w)
    as (r & w1 & Hrun & _ & _ & [Hc1 Hf1] & _).
  assert (in_sync w w1) as Hw1 by (by apply store_untouched_in_sync).
  destruct r as [subs| | |];
    [|by rewrite (bind_raised _ _ _ _ _ Hrun)|by rewrite (bind_exited _ _ _ _ _ Hrun)
     |by rewrite (bind_out_of_fuel _ _ _ _ Hrun)].
  rewrite (bind_ok _ _ _ _ _ Hrun).
  rewrite (bind_ok _ _ _ _ _ (cache_contains_run _ w1)).
  destruct (bool_decide (cur_cat_of alias ∈ dom (LICENSE_CACHE w1))); [done|].
  cbn [negb].
  destruct (record_license_data_run remote randint (cur_cat_of alias) alias w1)
    as (r2 & w2 & Hrec & _ & _ & Hc2 & [[-> (f & p & Hf2)]|(Hr2 & Hfuel2 & Hf2)]).
  - rewrite (bind_ok _ _ _ _ _ Hrec).
    unfold mbind at 1. unfold M_bind. cbn [cache_set].
    unfold mbind at 1. unfold M_bind. cbn [print_out].
    match goal with |- in_sync w (?m ?w4).2 =>
      assert (in_sync w w4) as Hw4; [|etrans; [exact Hw4|]] end.
    { exists [Row alias f p]. cbn. rewrite Hf2, Hf1, Hc2, Hc1. split; [done|].
      intros k. destruct (decide (k = cur_cat_of alias)) as [->|Hne].
      - rewrite lookup_insert_eq, decide_True; [done|]. by apply list_elem_of_singleton.
      - rewrite lookup_insert_ne by done. rewrite decide_False; [done|].
        by intros ?%list_elem_of_singleton. }
    destruct subs as [cats_list|]; [|reflexivity].
    apply stable_for_each. intros cats. apply IH.
  - assert (in_sync w w2) as Hw2.
    { apply store_untouched_in_sync. split; congruence. }
    destruct r2 as [[]| | |]; [done| | |done].
    + by rewrite (bind_raised _ _ _ _ _ Hrec).
    + by rewrite (bind_exited _ _ _ _ _ Hrec).
Qed.

End SyncFacts.

(** X8.  Whatever the endpoint answers and however a traversal ends, the
    cache after it is the cache before it with a [True] mark for exactly
    the categories of the rows it appended: a category is never marked
    without its row being written nor written without being marked, no
    mark is removed or changed, and a cached category stays cached. *)
Theorem cache_follows_report (remote : nat → string → option pyval) (randint : nat → Z)
    (fuel : nat) (alias : string) (w : World) :
  ∃ rows,
    data_file (recur_record_all_licenses remote randint fuel alias w).2
      = (data_file w ++ rows)%list
    ∧ (∀ k, LICENSE_CACHE (recur_record_all_licenses remote randint fuel alias w).2 !! k
            = if decide (k ∈ (row_category <$> rows)) then Some true
              else LICENSE_CACHE w !! k)
    ∧ dom (LICENSE_CACHE (recur_record_all_licenses remote randint fuel alias w).2)
      = dom (LICENSE_CACHE w) ∪ list_to_set (row_category <$> rows).
Proof.
  destruct (recur_in_sync remote randint fuel alias w) as (rows & Hf & Hc).
  exists rows. split; [done|]. split; [done|].
  apply set_eq. intros k. rewrite elem_of_union, elem_of_list_to_set, !elem_of_dom, Hc.
  destruct (decide (k ∈ row_category <$> rows)); [|tauto].
  split; [by right|]. by eexists.
Qed.

(** ** The report of a run *)

Section ReportFacts.

Variable remote : nat → string → option pyval.
Variable randint : nat → Z.

(** What [main] appends to the report, however it ends. *)
Lemma main_rows (fuel : nat) (w : World) :
  ∃ rows,
    data_file (main remote randint fuel w).2 = (data_file w ++ Header :: rows)%list
    ∧ Forall (λ l, is_row l = true) rows
    ∧ NoDup (row_category <$> rows)
    ∧ ∀ c, c ∈ (row_category <$> rows) → c ∉ dom (LICENSE_CACHE w).
Proof.
  unfold main, mbind, M_bind. cbn [set_up_data_file file_append].
  match goal with |- context [recur_record_all_licenses remote randint fuel ?a ?w0] =>
    destruct (recur_rows_fresh remote randint fuel a w0)
      as (rows & Hf & Hrows & Hnodup & Hcache & _);
    destruct (recur_record_all_licenses remote randint fuel a w0) as [[[]| | |] w'] end;
    cbn in Hf, Hcache |- *; exists rows; rewrite Hf, <- app_assoc;
    (split; [done|]); (split; [done|]); (split; [done|]);
    intros c Hc; by apply Hcache.
Qed.

End ReportFacts.

(** X9.  However the [main] of a process ends, what it has added to the
    report file of the day is one header line followed by data rows
    only, for pairwise distinct last alias segments; the header is there
    even when the first request fails. *)
Theorem run_report_shape (remote : nat → string → option pyval) (randint : nat → Z)
    (fuel : nat) (file : list Line) :
  ∃ rows,
    data_file (main remote randint fuel (Examples.process_start file)).2
      = (file ++ Header :: rows)%list
    ∧ Forall (λ l, is_row l = true) rows
    ∧ NoDup (row_category <$> rows).
Proof.
  destruct (main_rows remote randint fuel (Examples.process_start file))
    as (rows & Hf & Hrows & Hnodup & _).
  exists rows. split; [exact Hf|]. split; [exact Hrows|]. exact Hnodup.
Qed.

(** ** The category a traversal step asks for *)

#[global] Instance requests_grow_preorder : PreOrder requests_grow.
Proof.
  split.
  - intros w. exists []. by rewrite app_nil_r.
  - intros w1 w2 w3 [m1 H1] [m2 H2]. exists (m1 ++ m2). by rewrite H2, H1, app_assoc.
Qed.

Section SegmentFacts.

Lemma cur_cat_of_no_slash (alias : string) : PyStr.contains "/" (cur_cat_of alias) = false.
Proof.
  unfold cur_cat_of, PyStr.last_item.
  destruct (split_char_last "/" alias) as [x Hx]. rewrite Hx. cbn.
  apply last_Some_elem_of in Hx.
  pose proof (split_char_items "/" alias) as Hall.
  rewrite Forall_forall in Hall. by apply Hall.
Qed.

Lemma cur_cat_of_child_any (alias c : string) :
  cur_cat_of (alias +:+ "/" +:+ c) = cur_cat_of c.
Proof.
  unfold cur_cat_of, PyStr.last_item.
  change ("/" +:+ c) with (String "/" c).
  destruct (split_app alias c) as (hs & _ & ->).
  rewrite last_app. by destruct (split_char_last "/" c) as [x ->].
Qed.

Variable remote : nat → string → option pyval.
Variable randint : nat → Z.

Lemma recur_requests_grow (fuel : nat) : ∀ alias,
  stable requests_grow (recur_record_all_licenses remote randint fuel alias).
Proof.
  induction fuel as [|fuel IH]; intros alias; [by intros w|].
  cbn [recur_record_all_licenses]. apply stable_bind.
  { intros w. destruct (get_subcategories_plain remote randint (cur_cat_of alias) w)
      as (r & w1 & -> & Hreq & _). by eexists. }
  intros subs. apply stable_bind; [by intros w|]. intros cached.
  destruct cached; cbn; [by intros w|].
  apply stable_bind.
  { intros w. destruct (record_license_data_run remote randint (cur_cat_of alias) alias w)
      as (r & w1 & -> & Hreq & _). by eexists. }
  intros _. apply stable_bind; [intros w; exists []; cbn; by rewrite app_nil_r|]. intros _.
  apply stable_bind; [intros w; exists []; cbn; by rewrite app_nil_r|]. intros _.
  destruct subs as [cats_list|]; [|by intros w].
  apply stable_for_each. intros cats. apply IH.
Qed.

(** A traversal step starts with the listing of the last segment of its
    alias. *)
Lemma recur_first_request (fuel : nat) (alias : string) (w : World) :
  ∃ more,
    requests (recur_record_all_licenses remote randint (S fuel) alias w).2
      = (requests w ++ get_subcat_request_url (cur_cat_of alias) :: more)%list.
Proof.
  cbn [recur_record_all_licenses].
  destruct (get_subcategories_plain remote randint (cur_cat_of alias) w)
    as (r & w1 & Hrun & Hreq & _).
  destruct r as [subs| | |].
  - rewrite (bind_ok _ _ _ _ _ Hrun).
    match goal with |- context [requests (?m w1).2] =>
      assert (requests_grow w1 (m w1).2) as [more Hmore] end.
    { apply stable_bind; [by intros w0|]. intros cached.
      destruct cached; cbn; [by intros w0|].
      apply stable_bind.
      { intros w0. destruct (record_license_data_run remote randint (cur_cat_of alias) alias w0)
          as (r & w2 & -> & Hreq2 & _). by eexists. }
      intros _. apply stable_bind; [intros w0; exists []; cbn; by rewrite app_nil_r|].
      intros _. apply stable_bind; [intros w0; exists []; cbn; by rewrite app_nil_r|].
      intros _. destruct subs as [cats_list|]; [|by intros w0].
      apply stable_for_each. intros cats. apply recur_requests_grow. }
    exists more. by rewrite Hmore, Hreq, <- app_assoc.
  - rewrite (bind_raised _ _ _ _ _ Hrun). by exists [].
  - rewrite (bind_exited _ _ _ _ _ Hrun). by exists [].
  - rewrite (bind_out_of_fuel _ _ _ _ Hrun). by exists [].
Qed.

End SegmentFacts.

(** X11.  The category a traversal step works on is the last segment of
    its alias, [alias.split("/")[-1]]: it never has a slash, and for the
    alias of a child it is the last segment of the child's name, which is
    the name itself exactly when the name has no slash.  The step starts
    by requesting the listing of that segment, so a listed name with a
    slash is looked up under its last segment only. *)
Theorem child_is_looked_up_by_last_segment (remote : nat → string → option pyval)
    (randint : nat → Z) (fuel : nat) (alias c : string) (w : World) :
  PyStr.contains "/" (cur_cat_of alias) = false
  ∧ cur_cat_of (alias +:+ "/" +:+ c) = cur_cat_of c
  ∧ (cur_cat_of c = c ↔ PyStr.contains "/" c = false)
  ∧ ∃ more,
      requests (recur_record_all_licenses remote randint (S fuel) (alias +:+ "/" +:+ c) w).2
        = (requests w ++ get_subcat_request_url (cur_cat_of c) :: more)%list.
Proof.
  split; [apply cur_cat_of_no_slash|]. split; [apply cur_cat_of_child_any|]. split.
  - split; [intros <-; apply cur_cat_of_no_slash|apply cur_cat_of_plain].
  - rewrite <- (cur_cat_of_child_any alias c). apply recur_first_request.
Qed.

(** ** The debug lines *)

#[global] Instance logged_preorder : PreOrder logged.
Proof.
  split.
  - intros w. exists [], []. rewrite !app_nil_r. by repeat split.
  - intros w1 w2 w3 (rows1 & outs1 & Hf1 & Hr1 & Ho1 & Hd1) (rows2 & outs2 & Hf2 & Hr2 & Ho2 & Hd2).
    exists (rows1 ++ rows2), (outs1 ++ outs2).
    split; [by rewrite Hf2, Hf1, app_assoc|]. split; [by apply Forall_app|].
    split; [by rewrite Ho2, Ho1, app_assoc|].
    by rewrite List.filter_app, Hd1, Hd2, fmap_app.
Qed.

Section LogFacts.

Variable remote : nat → string → option pyval.
Variable randint : nat → Z.

(** What the handler without backoff prints on the output stream: the
    answer and the message, or nothing. *)
Lemma handler_plain_stdout {A} (key message : string) (retry : M (option A))
    (search_data : option pyval) (w : World) :
  data_file (handler randint key message retry false search_data w).2 = data_file w
  ∧ ∃ outs,
      stdout (handler randint key message retry false search_data w).2
        = (stdout w ++ outs)%list
      ∧ (outs = [] ∨ ∃ data, search_data = Some data ∧ outs = [OutValue data; OutText message]).
Proof.
  unfold handler. destruct search_data as [data|].
  - unfold mbind, M_bind, lift. destruct (contains key data) as [e|[]]; cbn.
    + split; [done|]. exists []. rewrite app_nil_r. by split; [|left].
    + split; [done|]. exists []. rewrite app_nil_r. by split; [|left].
    + split; [done|]. eexists. rewrite <- app_assoc. split; [done|]. right. by eexists.
  - split; [done|]. exists []. cbn. rewrite app_nil_r. by split; [|left].
Qed.

(** An endpoint whose table holds JSON objects only never answers a
    bare string. *)
Lemma table_remote_dicts (table : list (string * pyval)) (n : nat) (url s : string) :
  Forall (λ p, ∃ d, p.2 = PDict d) table →
  Examples.table_remote table n url ≠ Some (PStr s).
Proof.
  unfold Examples.table_remote. induction 1 as [|[u v] table [d Hd] _ IH]; [done|].
  cbn [List.find fst]. destruct (String.eqb u url); [|exact IH].
  cbn in Hd |- *. rewrite Hd. discriminate.
Qed.

(** No answer of the endpoint is a bare JSON string that starts with
    ["DEBUG "]. *)
Hypothesis answers_not_debug :
  ∀ n url s, remote n url = Some (PStr s) → String.prefix "DEBUG " s = false.

Lemma answer_not_debug (n : nat) (url : string) (data : pyval) :
  remote n url = Some data → is_debug (OutValue data) = false.
Proof. destruct data; try done. apply answers_not_debug. Qed.

Lemma get_subcategories_logged (license : string) :
  stable logged (get_subcategories remote randint license false).
Proof.
  intros w. rewrite get_subcategories_eq. cbn zeta.
  destruct (remote _ _ ≫= _).
  { exists [], []. cbn. rewrite !app_nil_r. by repeat split. }
  match goal with |- context [handler randint ?k ?m ?rt false ?sd ?w1] =>
    destruct (handler_plain_stdout k m rt sd w1) as (Hf & outs & Ho & Hcase) end.
  exists [], outs. cbn in Hf, Ho. rewrite app_nil_r.
  split; [done|]. split; [constructor|]. split; [done|].
  destruct Hcase as [->|(data & Hdata & ->)]; [done|].
  cbn [List.filter]. by rewrite (answer_not_debug _ _ _ Hdata).
Qed.

Lemma get_license_contents_logged (license : string) :
  stable logged (get_license_contents remote randint license false).
Proof.
  intros w. rewrite get_license_contents_eq. cbn zeta.
  destruct (remote _ _ ≫= _).
  { exists [], []. cbn. rewrite !app_nil_r. by repeat split. }
  match goal with |- context [handler randint ?k ?m ?rt false ?sd ?w1] =>
    destruct (handler_plain_stdout k m rt sd w1) as (Hf & outs & Ho & Hcase) end.
  exists [], outs. cbn in Hf, Ho. rewrite app_nil_r.
  split; [done|]. split; [constructor|]. split; [done|].
  destruct Hcase as [->|(data & Hdata & ->)]; [done|].
  cbn [List.filter]. by rewrite (answer_not_debug _ _ _ Hdata).
Qed.

Lemma is_debug_debug_line (alias : string) (f p : Z) :
  is_debug (debug_line (Row alias f p)) = true.
Proof.
  cbn [debug_line is_debug].
  change ("DEBUG Logged " +:+ cur_cat_of alias +:+ " from " +:+ alias)
    with ("DEBUG " +:+ ("Logged " +:+ cur_cat_of alias +:+ " from " +:+ alias)).
  apply prefix_app.
Qed.

(** Recording a row and reporting it: lines 222 to 224. *)
Lemma record_and_report_logged (alias : string) :
  stable logged
    (record_license_data remote randint (cur_cat_of alias) alias;;
     cache_set (cur_cat_of alias) true;;
     print_out (OutText ("DEBUG Logged " +:+ cur_cat_of alias +:+ " from " +:+ alias))).
Proof.
  intros w.
  destruct (get_license_contents_logged (cur_cat_of alias) w)
    as (rows & outs & Hf & Hrows & Ho & Hd).
  destruct (get_license_contents remote randint (cur_cat_of alias) false w)
    as [r w1] eqn:Hrun. cbn in Hf, Ho.
  assert (logged w w1) as Hw1 by (by exists rows, outs).
  destruct r as [[d|]| | |].
  - assert (record_license_data remote randint (cur_cat_of alias) alias w
            = (Ok (), (file_append (Row alias (total_file_cnt d) (total_page_cnt d)) w1).2))
      as Hrec by (unfold record_license_data; by rewrite (bind_ok _ _ _ _ _ Hrun)).
    rewrite (bind_ok _ _ _ _ _ Hrec). unfold mbind, M_bind. cbn.
    exists (rows ++ [Row alias (total_file_cnt d) (total_page_cnt d)]),
           (outs ++ [debug_line (Row alias (total_file_cnt d) (total_page_cnt d))]).
    cbn. rewrite Hf, Ho, <- !app_assoc. split; [done|].
    split; [apply Forall_app; split; [done|by repeat constructor]|]. split; [done|].
    rewrite List.filter_app, Hd, fmap_app. f_equal.
  - assert (record_license_data remote randint (cur_cat_of alias) alias w
            = (Raised TypeError, w1))
      as Hrec by (unfold record_license_data; by rewrite (bind_ok _ _ _ _ _ Hrun)).
    by rewrite (bind_raised _ _ _ _ _ Hrec).
  - assert (record_license_data remote randint (cur_cat_of alias) alias w = (Raised e, w1))
      as Hrec by (unfold record_license_data; by rewrite (bind_raised _ _ _ _ _ Hrun)).
    by rewrite (bind_raised _ _ _ _ _ Hrec).
  - assert (record_license_data remote randint (cur_cat_of alias) alias w = (Exited code, w1))
      as Hrec by (unfold record_license_data; by rewrite (bind_exited _ _ _ _ _ Hrun)).
    by rewrite (bind_exited _ _ _ _ _ Hrec).
  - assert (record_license_data remote randint (cur_cat_of alias) alias w = (OutOfFuel, w1))
      as Hrec by (unfold record_license_data; by rewrite (bind_out_of_fuel _ _ _ _ Hrun)).
    by rewrite (bind_out_of_fuel _ _ _ _ Hrec).
Qed.

Lemma recur_logged (fuel : nat) : ∀ alias,
  stable logged (recur_record_all_licenses remote randint fuel alias).
Proof.
  induction fuel as [|fuel IH]; intros alias; [by intros w|].
  cbn [recur_record_all_licenses]. apply stable_bind.
  { apply get_subcategories_logged. }
  intros subs. apply stable_bind; [by intros w|]. intros cached.
  destruct cached; cbn [negb]; [by intros w|].
  intros w. pose proof (record_and_report_logged alias w) as Hstep.
  destruct (record_license_data remote randint (cur_cat_of alias) alias w)
    as [r w1] eqn:Hrec.
  destruct r as [[]| | |].
  - rewrite (bind_ok _ _ _ _ _ Hrec) in Hstep. rewrite (bind_ok _ _ _ _ _ Hrec).
    unfold mbind, M_bind in Hstep. cbn in Hstep.
    unfold mbind at 1. unfold M_bind. cbn [cache_set].
    unfold mbind at 1. unfold M_bind. cbn [print_out].
    etrans; [exact Hstep|].
    destruct subs as [cats_list|]; [|reflexivity].
    apply stable_for_each. intros cats. apply IH.
  - rewrite (bind_raised _ _ _ _ _ Hrec) in Hstep. by rewrite (bind_raised _ _ _ _ _ Hrec).
  - rewrite (bind_exited _ _ _ _ _ Hrec) in Hstep. by rewrite (bind_exited _ _ _ _ _ Hrec).
  - rewrite (bind_out_of_fuel _ _ _ _ Hrec) in Hstep.
    by rewrite (bind_out_of_fuel _ _ _ _ Hrec).
Qed.

End LogFacts.

(** X12.  When no answer of the endpoint is a bare JSON string that
    starts with ["DEBUG "], then however a traversal ends, the items it
    prints that start with ["DEBUG "] are exactly the lines
    ["DEBUG Logged <category> from <alias>"] of the rows it appended to
    the report, one per row and in the same order: every row written is
    logged and nothing is logged that was not written. *)
Theorem debug_lines_match_rows (remote : nat → string → option pyval) (randint : nat → Z)
    (fuel : nat) (alias : string) (w : World) :
  (∀ n url s, remote n url = Some (PStr s) → String.prefix "DEBUG " s = false) →
  ∃ rows outs,
    data_file (recur_record_all_licenses remote randint fuel alias w).2
      = (data_file w ++ rows)%list
    ∧ Forall (λ l, is_row l = true) rows
    ∧ stdout (recur_record_all_licenses remote randint fuel alias w).2
      = (stdout w ++ outs)%list
    ∧ List.filter is_debug outs = debug_line <$> rows.
Proof.
  intros Hanswers.
  destruct (recur_logged remote randint Hanswers fuel alias w)
    as (rows & outs & Hf & Hrows & Ho & Hd).
  exists rows, outs. split; [exact Hf|]. split; [exact Hrows|]. split; [exact Ho|]. exact Hd.
Qed.

Lemma debug_lines_match_rows_witness :
  (∀ n url s, Examples.remote_AB n url = Some (PStr s) → String.prefix "DEBUG " s = false)
  ∧ ∃ rows outs,
      data_file (recur_record_all_licenses Examples.remote_AB (Examples.constant_draw 1) 3 "A"
                   initial).2 = rows
      ∧ stdout (recur_record_all_licenses Examples.remote_AB (Examples.constant_draw 1) 3 "A"
                  initial).2 = outs
      ∧ List.filter is_debug outs = debug_line <$> rows.
Proof.
  assert (∀ n url s, Examples.remote_AB n url = Some (PStr s) → String.prefix "DEBUG " s = false)
    as Hanswers.
  { intros n url s H. exfalso. revert H. apply table_remote_dicts.
    unfold Examples.category, Examples.subcat_response, Examples.content_response.
    repeat constructor; by eexists. }
  split; [exact Hanswers|].
  destruct (debug_lines_match_rows Examples.remote_AB (Examples.constant_draw 1) 3 "A" initial
              Hanswers) as (rows & outs & Hf & _ & Ho & Hd).
  exists rows, outs. split; [exact Hf|]. split; [exact Ho|]. exact Hd.
Defined.
